(** * indra_db_lite.tables.best_content: the chunked, resumable csv pipelines

    A shallow embedding of [process_raw_abstracts_csv],
    [process_raw_fulltexts_csv], [_extract_then_dump] and [_get_line_count]
    of [indra_db_lite/tables/best_content.py], together with the parts of
    pandas ([read_csv] with [chunksize], [skiprows] and [names]; [to_csv] in
    append mode), of [multiprocessing.Pool.map] and of [bytes.fromhex] that
    these functions rely on.

    Files are lists of lines in a finite map from paths; Python exceptions
    are an explicit error result threaded through a state-and-error monad. *)

From Stdlib Require Import ZArith Strings.Ascii Strings.String Strings.Byte.
From stdpp Require Import gmap strings list fin_maps sorting.

(** ** Exceptions and results *)

Inductive exn : Type :=
  | UnboundLocalError    (* a local variable is read before assignment *)
  | ValueError           (* bytes.fromhex, Pool(0), chunksize < 1, a scalar
                            set as a new column of a frame without rows *)
  | TypeError            (* bytes.fromhex of a cell that is not text *)
  | FileNotFoundError    (* os.remove on a missing path *)
  | CalledProcessError   (* wc -l failed *)
  | DecompressError      (* raised by unpack *)
  | ExtractionError      (* raised by universal_extract_paragraphs *)
  | NotReady.            (* MapResult.get before every task has reported *)

Global Instance exn_eq_dec : EqDecision exn.
Proof. solve_decision. Defined.

Inductive result (A : Type) : Type :=
  | Ok (a : A)
  | Raise (e : exn).
Arguments Ok {A} a.
Arguments Raise {A} e.

Global Instance result_ret : MRet result := λ A a, Ok a.
Global Instance result_bind : MBind result := λ A B f m,
  match m with
  | Ok a => f a
  | Raise e => Raise e
  end.
Global Instance result_fmap : FMap result := λ A B f m,
  match m with
  | Ok a => Ok (f a)
  | Raise e => Raise e
  end.

Definition is_Ok {A} (m : result A) : Prop := ∃ a, m = Ok a.
Definition is_Raise {A} (m : result A) : Prop := ∃ e, m = Raise e.

(** [list(map(f, l))]: stops at the first element on which [f] raises. *)
Fixpoint map_raise {A B} (f : A → result B) (l : list A) : result (list B) :=
  match l with
  | [] => Ok []
  | x :: l' => y ← f x; ys ← map_raise f l'; Ok (y :: ys)
  end.

(** ** bytes.fromhex

    CPython skips ASCII whitespace in front of a byte, then wants two
    hexadecimal digits; anything else is a ValueError. *)

Definition hex_digit (c : ascii) : option N :=
  let n := N_of_ascii c in
  if ((48 <=? n) && (n <=? 57))%N then Some (n - 48)%N
  else if ((97 <=? n) && (n <=? 102))%N then Some (n - 87)%N
  else if ((65 <=? n) && (n <=? 70))%N then Some (n - 55)%N
  else None.

Definition Py_ISSPACE (c : ascii) : bool :=
  let n := N_of_ascii c in
  ((9 <=? n) && (n <=? 13) || (n =? 32))%N.

Fixpoint fromhex_chars (s : list ascii) : result (list byte) :=
  match s with
  | [] => Ok []
  | c :: s' =>
      if Py_ISSPACE c then fromhex_chars s'
      else match hex_digit c, s' with
           | Some top, d :: s'' =>
               match hex_digit d with
               | Some bot =>
                   bs ← fromhex_chars s'';
                   Ok (byte_of_ascii (ascii_of_N (16 * top + bot)) :: bs)
               | None => Raise ValueError
               end
           | _, _ => Raise ValueError
           end
  end.

(** A payload cell of a chunk, as the reader parsed it.  [read_csv] is
    given no dtype and infers one for each column of each chunk: the hex of
    a payload stays text, but a cell is an int or a float where pandas took
    it for a number (a column of digits only, an empty cell read as NaN).
    What each cell was parsed to comes with the table given to a pipeline;
    [bytes.fromhex] wants text. *)
Inductive cell : Type :=
  | Text (s : string)
  | Number.

Definition bytes_fromhex (x : cell) : result (list byte) :=
  match x with
  | Text s => fromhex_chars (list_ascii_of_string s)
  | Number => Raise TypeError
  end.

(** ** Rows *)

(** Rows of the raw abstracts table, as [read_csv] names the columns; the
    id cells are integers and the payload cells are as the reader parsed
    them. *)
Module Abstracts.
Record row : Type := Row {
  text_ref_id : Z;
  tc_id1 : Z;
  tc_id2 : Z;
  title : cell;
  abstract : cell
}.
End Abstracts.

(** Rows of the raw fulltexts table. *)
Module Fulltexts.
Record row : Type := Row {
  text_ref_id : Z;
  tc_id1 : Z;
  fulltext : cell
}.
End Fulltexts.

(** Rows of the processed table: the five columns selected for [output]. *)
Record out_row : Type := OutRow {
  text_ref_id : Z;
  tc_id1 : Z;
  tc_id2 : option Z;
  text_type : string;
  content : string
}.

Global Instance out_row_eq_dec : EqDecision out_row.
Proof. solve_decision. Defined.

(** ** The file system

    A file is its list of newline-terminated lines.  [json.dumps] escapes
    line breaks, the other columns are integers, an empty cell or a constant,
    so [to_csv] writes exactly one line per row. *)

Inductive line : Type :=
  | Header                (* text_ref_id,tc_id1,tc_id2,text_type,content *)
  | Data (r : out_row)
  | Foreign (s : string). (* any other line found in a file *)

Global Instance line_eq_dec : EqDecision line.
Proof. solve_decision. Defined.

Abbreviation fs := (gmap string (list line)).

(** State (the file system) and exceptions; the state reached when an
    exception is raised is kept: writes already made stay on disk. *)
Definition M (A : Type) : Type := fs → result A * fs.

Global Instance M_ret : MRet M := λ A a σ, (Ok a, σ).
Global Instance M_bind : MBind M := λ A B f m σ,
  match m σ with
  | (Ok a, σ') => f a σ'
  | (Raise e, σ') => (Raise e, σ')
  end.

Definition lift {A} (m : result A) : M A := λ σ, (m, σ).

Definition os_path_exists (path : string) : M bool :=
  λ σ, (Ok (bool_decide (is_Some (σ !! path))), σ).

Definition os_remove (path : string) : M unit :=
  λ σ, match σ !! path with
       | Some _ => (Ok tt, delete path σ)
       | None => (Raise FileNotFoundError, σ)
       end.

(** [int(subprocess.check_output(['wc', '-l', path]).split()[0])] *)
Definition _get_line_count (path : string) : M nat :=
  λ σ, match σ !! path with
       | Some f => (Ok (length f), σ)
       | None => (Raise CalledProcessError, σ)
       end.

(** [output.to_csv(path, mode='a', header=header, index=False)] *)
Definition to_csv (path : string) (header : bool) (output : list out_row)
    : M unit :=
  λ σ, (Ok tt,
        <[path := default [] (σ !! path)
                  ++ (if header then [Header] else []) ++ (Data <$> output)]> σ).

(** What a file holds after [rows] were appended to it in one or more
    writes, the first of which created it if it was missing. *)
Definition written (old : option (list line)) (rows : list out_row)
    : list line :=
  match old with
  | Some f => f ++ (Data <$> rows)
  | None => Header :: (Data <$> rows)
  end.

(** How many lines of a file are the header line. *)
Definition header_count (f : list line) : nat :=
  length (filter (λ l, l = Header) f).

(** ** Reading the input table in chunks

    [itertools.islice]-style chunking, used by pandas' chunked reader and by
    [Pool._get_tasks]: take [size] items at a time until a slice is empty.
    The fuel is the number of items, which no run exhausts. *)

Fixpoint islices {A} (fuel size : nat) (it : list A) : list (list A) :=
  match fuel with
  | 0 => []
  | S fuel' =>
      match take size it with
      | [] => []
      | x => x :: islices fuel' size (drop size it)
      end
  end.

Definition chunks_of {A} (size : nat) (it : list A) : list (list A) :=
  islices (length it) size it.

(** Python's [range(start, stop)]. *)
Definition range (start stop : nat) : list nat := seq start (stop - start).

(** The tokenizer walks the file with a line counter and drops the lines
    whose (0-based) number is in [skiprows]. *)
Fixpoint skip_lines {R} (lineno : nat) (skiprows : list nat) (table : list R)
    : list R :=
  match table with
  | [] => []
  | r :: table' =>
      if bool_decide (lineno ∈ skiprows)
      then skip_lines (S lineno) skiprows table'
      else r :: skip_lines (S lineno) skiprows table'
  end.

(** [pd.read_csv(inpath, sep=',', chunksize=chunksize, skiprows=skiprows,
    names=[...])].  [table] is the content of the file at [inpath], one
    record per line.  As [names] is given, no line is a header: line 0 is
    data.  The result is the sequence of chunks the reader yields; when no
    line is kept it still yields one chunk, a frame with the named columns
    and no row. *)
Definition read_csv {R} (table : list R) (chunksize : nat)
    (skiprows : list nat) : result (list (list R)) :=
  if chunksize =? 0 then Raise ValueError
  else match skip_lines 0 skiprows table with
       | [] => Ok [[]]
       | kept => Ok (chunks_of chunksize kept)
       end.

(** [for chunk in reader: body]; [k] counts the chunks already read. *)
Fixpoint for_chunks {A} (body : nat → A → M unit) (k : nat) (reader : list A)
    : M unit :=
  match reader with
  | [] => mret tt
  | chunk :: rest => body k chunk ;; for_chunks body (S k) rest
  end.

(** ** multiprocessing.Pool.map

    The iterable is cut into task batches; a worker evaluates a batch with
    [list(map(func, batch))] and reports either the list of results or the
    exception.  [MapResult._set] stores the results of batch [i] in the
    slice [i*chunksize : (i+1)*chunksize] of [_value], and keeps the first
    exception that is reported.  The order in which the batches report is
    not fixed by the program: batch [i] reports at time [delay i], and the
    reports are handled in order of time. *)

Definition map_chunksize (len processes : nat) : nat :=
  let chunksize := len / (processes * 4) in
  let extra := len mod (processes * 4) in
  let chunksize := if extra =? 0 then chunksize else S chunksize in
  if len =? 0 then 0 else chunksize.

Inductive MapResult (B : Type) : Type :=
  | Collecting (_value : list (option B))
  | Failed (e : exn).
Arguments Collecting {B} _value.
Arguments Failed {B} e.

Definition MapResult_set {B} (chunksize i : nat)
    (success_result : result (list B)) (r : MapResult B) : MapResult B :=
  match r, success_result with
  | Collecting _value, Ok res =>
      Collecting (list_inserts (i * chunksize) (Some <$> res) _value)
  | Collecting _, Raise e => Failed e
  | Failed e, _ => Failed e
  end.

Definition MapResult_get {B} (r : MapResult B) : result (list B) :=
  match r with
  | Collecting _value =>
      match mapM id _value with
      | Some l => Ok l
      | None => Raise NotReady
      end
  | Failed e => Raise e
  end.

Definition reports_before (delay : nat → nat) (i j : nat) : Prop :=
  delay i ≤ delay j.

Global Instance reports_before_dec delay : RelDecision (reports_before delay).
Proof. intros i j. unfold reports_before. apply _. Defined.

Definition completion_order (delay : nat → nat) (ntasks : nat) : list nat :=
  merge_sort (reports_before delay) (seq 0 ntasks).

(** [_handle_results]: the report of batch [i] reaches [MapResult._set]. *)
Definition handle_report {B} (chunksize : nat)
    (outcomes : list (result (list B))) (r : MapResult B) (i : nat)
    : MapResult B :=
  match outcomes !! i with
  | Some success_result => MapResult_set chunksize i success_result r
  | None => r
  end.

Definition Pool_map {A B} (delay : nat → nat) (processes : nat)
    (func : A → result B) (iterable : list A) : result (list B) :=
  if processes =? 0 then Raise ValueError
  else
    let chunksize := map_chunksize (length iterable) processes in
    let task_batches := chunks_of chunksize iterable in
    let outcomes := map_raise func <$> task_batches in
    MapResult_get
      (foldl (handle_report chunksize outcomes)
         (Collecting (replicate (length iterable) None))
         (completion_order delay (length task_batches))).

(** What [_value] holds once the batches of [reported] have reported, when
    [l'] are the results of all items: slot [j] is filled when its batch
    [j / chunksize] is among them. *)
Definition slots {B} (chunksize : nat) (reported : list nat) (l' : list B)
    : list (option B) :=
  imap (λ j b, if bool_decide (j `div` chunksize ∈ reported)
               then Some b else None) l'.

(** ** The two pipelines *)

(** [chunk.loc[:, column] = scalar] for a column the frame does not have
    yet: pandas refuses it on a frame without rows. *)
Definition set_new_column {R} (chunk : list R) : result unit :=
  match chunk with
  | [] => Raise ValueError
  | _ => Ok tt
  end.

(** Reading a local variable that may not have been assigned. *)
Definition load_local {A} (v : option A) : result A :=
  match v with
  | Some a => Ok a
  | None => Raise UnboundLocalError
  end.

Section pipelines.
(** The collaborators outside this repository:
    [indra_db.util.helpers.unpack], [universal_extract_paragraphs] of
    [indra.literature.adeft_tools], and [json.dumps] on a list of
    strings (which does not raise). *)
Variable unpack : list byte → result string.
Variable universal_extract_paragraphs : string → result (list string).
Variable json_dumps : list string → string.

(** [lambda x: unpack(bytes.fromhex(x))] *)
Definition unpack_fromhex (x : cell) : result string :=
  bs ← bytes_fromhex x; unpack bs.

Definition _extract_then_dump (hex_string : cell) : result string :=
  bs ← bytes_fromhex hex_string;
  xml ← unpack bs;
  paragraphs ← universal_extract_paragraphs xml;
  Ok (json_dumps paragraphs).

(** The body of the abstracts loop up to [output]: the columns are
    rewritten one after the other, each over the whole chunk; [text_type]
    is the first new column set to a scalar. *)
Definition abstracts_output (chunk : list Abstracts.row)
    : result (list out_row) :=
  abstract ← map_raise unpack_fromhex (Abstracts.abstract <$> chunk);
  title ← map_raise unpack_fromhex (Abstracts.title <$> chunk);
  _ ← set_new_column chunk;
  let content := zip_with (λ t a, json_dumps [t; a]) title abstract in
  Ok (zip_with
        (λ row c,
           OutRow (Abstracts.text_ref_id row) (Abstracts.tc_id1 row)
             (Some (Abstracts.tc_id2 row)) "abstract" c)
        chunk content).

(** The body of the fulltexts loop up to [output]; [tc_id2] is the first
    new column set to a scalar. *)
Definition fulltexts_output (delay : nat → nat) (n_jobs : nat)
    (chunk : list Fulltexts.row) : result (list out_row) :=
  fulltexts ← Pool_map delay n_jobs _extract_then_dump
                (Fulltexts.fulltext <$> chunk);
  _ ← set_new_column chunk;
  Ok (zip_with
        (λ row c,
           OutRow (Fulltexts.text_ref_id row) (Fulltexts.tc_id1 row)
             None "fulltext" c)
        chunk fulltexts).

(** The row transformers as the specification words them (4.2), one row
    at a time; the loop bodies above are compared with them below. *)
Definition AbstractTransformer (row : Abstracts.row) : result out_row :=
  abstract_text ← unpack_fromhex (Abstracts.abstract row);
  title_text ← unpack_fromhex (Abstracts.title row);
  Ok (OutRow (Abstracts.text_ref_id row) (Abstracts.tc_id1 row)
        (Some (Abstracts.tc_id2 row)) "abstract"
        (json_dumps [title_text; abstract_text])).

Definition FulltextTransformer (row : Fulltexts.row) : result out_row :=
  bs ← bytes_fromhex (Fulltexts.fulltext row);
  markup ← unpack bs;
  paragraphs ← universal_extract_paragraphs markup;
  Ok (OutRow (Fulltexts.text_ref_id row) (Fulltexts.tc_id1 row)
        None "fulltext" (json_dumps paragraphs)).

(** [output.to_csv(outpath, mode='a',
                   header=not os.path.exists(outpath), index=False)] *)
Definition append_output (outpath : string) (output : list out_row)
    : M unit :=
  present ← os_path_exists outpath;
  to_csv outpath (negb present) output.

Definition abstracts_body (outpath : string) (k : nat)
    (chunk : list Abstracts.row) : M unit :=
  output ← lift (abstracts_output chunk);
  append_output outpath output.

Definition fulltexts_body (delay : nat → nat → nat) (n_jobs : nat)
    (outpath : string) (k : nat) (chunk : list Fulltexts.row) : M unit :=
  output ← lift (fulltexts_output (delay k) n_jobs chunk);
  append_output outpath output.

(** [inpath] stands for the content of the file of that name, which is
    not the file at [outpath].  [num_processed_rows] has no value until
    the restart branch assigns it. *)
Definition process_raw_abstracts_csv (inpath : list Abstracts.row)
    (outpath : string) (chunksize : nat) (restart : bool) : M unit :=
  present ← os_path_exists outpath;
  num_processed_rows ←
    (if present : bool then
       if restart then n ← _get_line_count outpath; mret (Some n)
       else os_remove outpath ;; mret None
     else mret None);
  n ← lift (load_local num_processed_rows);
  reader ← lift (read_csv inpath chunksize (range 1 (n + 1)));
  for_chunks (abstracts_body outpath) 0 reader.

(** [delay k i] is the time at which batch [i] of chunk [k] reports. *)
Definition process_raw_fulltexts_csv (delay : nat → nat → nat)
    (inpath : list Fulltexts.row) (outpath : string)
    (chunksize n_jobs : nat) (restart : bool) : M unit :=
  let num_processed_rows := 0 in
  present ← os_path_exists outpath;
  num_processed_rows ←
    (if present : bool then
       if restart then _get_line_count outpath
       else os_remove outpath ;; mret num_processed_rows
     else mret num_processed_rows);
  reader ← lift (read_csv inpath chunksize
                   (range 1 (num_processed_rows + 1)));
  for_chunks (fulltexts_body delay n_jobs outpath) 0 reader.

End pipelines.

(** ** Stand-ins for the collaborators

    Small total functions with the interfaces of [unpack],
    [universal_extract_paragraphs] and [json.dumps], to run the pipelines
    on examples: a payload is the two bytes 1f 8b, as gzip has them in
    front, and then the text itself; a markup separates its paragraphs with
    a bar; the dump is json for texts that need no escape.  The hex of such
    a payload has letters, so that pandas reads the cell as text. *)
Module Doubles.
Definition unpack (bs : list byte) : result string :=
  match bs with
  | x1f :: x8b :: text => Ok (string_of_list_byte text)
  | _ => Raise DecompressError
  end.

Fixpoint paragraphs (markup : string) : list string :=
  match markup with
  | EmptyString => [EmptyString]
  | String c markup' =>
      if Ascii.eqb c "|" then EmptyString :: paragraphs markup'
      else match paragraphs markup' with
           | p :: ps => String c p :: ps
           | [] => [String c EmptyString]
           end
  end.

Definition universal_extract_paragraphs (markup : string)
    : result (list string) :=
  Ok (paragraphs markup).

Definition quote : string := String (ascii_of_nat 34) EmptyString.

Definition json_dumps (l : list string) : string :=
  "[" +:+ String.concat ", " ((λ s, quote +:+ s +:+ quote) <$> l) +:+ "]".

Definition process_raw_abstracts_csv :=
  process_raw_abstracts_csv unpack json_dumps.
Definition process_raw_fulltexts_csv :=
  process_raw_fulltexts_csv unpack universal_extract_paragraphs json_dumps.

(** Input row [i] of a fulltexts table, and the row it becomes. *)
Definition fulltext_in (i : Z) (hex : string) : Fulltexts.row :=
  Fulltexts.Row i (100 + i) (Text hex).
Definition fulltext_out (i : Z) (paragraphs : list string) : out_row :=
  OutRow i (100 + i) None "fulltext" (json_dumps paragraphs).

(** The payloads of the texts A, B, C, D and E, in hex. *)
Definition five_rows : list Fulltexts.row :=
  [fulltext_in 0 "1f8b41"; fulltext_in 1 "1f8b42"; fulltext_in 2 "1f8b43";
   fulltext_in 3 "1f8b44"; fulltext_in 4 "1f8b45"].

(** A chunk of ten rows whose row 5 has a payload that is not hex. *)
Definition ten_rows_one_corrupt : list Fulltexts.row :=
  (λ i : nat, fulltext_in (Z.of_nat i) (if i =? 5 then "zz" else "1f8b41"))
    <$> seq 0 10.

(** The abstracts row of the specification's example: the payloads of
    Title A and of Abstract A, in hex. *)
Definition abstract_in : Abstracts.row :=
  Abstracts.Row 7 101 102 (Text "1f8b5469746c652041")
    (Text "1f8b41627374726163742041").

(** All workers done at once, and the last batch reporting first. *)
Definition together : nat → nat → nat := λ _ _, 0.
Definition last_first : nat → nat → nat := λ _ i, 100 - i.
End Doubles.

(** * Properties *)

(** ** Results *)

Section map_raise.
Context {A B : Type} (f : A → result B).

Lemma map_raise_Ok l l' :
  map_raise f l = Ok l' ↔ Forall2 (λ x y, f x = Ok y) l l'.
Proof.
  revert l'. induction l as [|x l IH]; intros l'; simpl.
  - split; [intros [= <-]; constructor | by intros ->%Forall2_nil_inv_l].
  - split.
    + unfold mbind, result_bind. destruct (f x) as [y|] eqn:Hy; [|done].
      destruct (map_raise f l) as [ys|] eqn:Hys; [|done].
      intros [= <-]. constructor; [done | by apply IH].
    + intros (y & ys & Hy & Hys & ->)%Forall2_cons_inv_l.
      apply IH in Hys. unfold mbind, result_bind. by rewrite Hy, Hys.
Qed.

Lemma map_raise_Raise l e :
  map_raise f l = Raise e → ∃ x, x ∈ l ∧ f x = Raise e.
Proof.
  induction l as [|x l IH]; simpl; [done |].
  unfold mbind, result_bind. destruct (f x) as [y|e'] eqn:Hy.
  - destruct (map_raise f l) as [ys|e'']; [done |].
    intros [= ->]. destruct IH as (x' & ? & ?); [done |].
    exists x'. split; [by right | done].
  - intros [= ->]. exists x. split; [by left | done].
Qed.

Lemma map_raise_total l :
  (∀ x, x ∈ l → is_Ok (f x)) → is_Ok (map_raise f l).
Proof.
  intros Hl. destruct (map_raise f l) as [l'|e] eqn:Hm; [by eexists |].
  apply map_raise_Raise in Hm as (x & Hx & He).
  destruct (Hl x Hx) as [y Hy]. congruence.
Qed.

Lemma map_raise_fails l x :
  x ∈ l → is_Raise (f x) → is_Raise (map_raise f l).
Proof.
  intros Hx [e He]. destruct (map_raise f l) as [l'|e'] eqn:Hm; [|by eexists].
  apply map_raise_Ok in Hm.
  apply list_elem_of_lookup in Hx as [i Hi].
  destruct (Forall2_lookup_l _ _ _ _ _ Hm Hi) as (y & _ & Hy). congruence.
Qed.

Lemma map_raise_length l l' : map_raise f l = Ok l' → length l' = length l.
Proof. intros Hm%map_raise_Ok. symmetry. by eapply Forall2_length. Qed.

Lemma map_raise_concat ls l' :
  map_raise f (concat ls) = Ok l' →
  ∃ ls', Forall2 (λ l o, map_raise f l = Ok o) ls ls' ∧ concat ls' = l'.
Proof.
  revert l'. induction ls as [|l ls IH]; intros l'; simpl.
  - intros [= <-]. exists []. by split; [constructor |].
  - intros (o & os & Ho & Hos & ->)%map_raise_Ok%Forall2_app_inv_l.
    apply map_raise_Ok in Ho, Hos.
    destruct (IH _ Hos) as (ls' & Hls' & <-).
    exists (o :: ls'). by split; [constructor |].
Qed.
End map_raise.

Lemma Forall2_Forall_l {A B} (P : A → Prop) (Q : A → B → Prop) l k :
  Forall P l → Forall2 Q l k → Forall2 (λ x y, P x ∧ Q x y) l k.
Proof.
  intros Hl Hlk. induction Hlk as [|x y l k Hxy Hlk IH]; [constructor |].
  apply Forall_cons in Hl as [Hx Hl]. constructor; auto.
Qed.

(** ** Chunking *)

Section islices.
Context {A : Type}.
Implicit Types it : list A.

Lemma take_nil_inv size it : 0 < size → take size it = [] → it = [].
Proof. destruct size, it; simpl; (done || lia). Qed.

Lemma islices_concat fuel size it :
  0 < size → length it ≤ fuel → concat (islices fuel size it) = it.
Proof.
  intros Hsize. revert it.
  induction fuel as [|fuel IH]; intros it Hfuel; simpl.
  - destruct it; simpl in *; [done | lia].
  - destruct (take size it) as [|a x] eqn:Htake.
    + symmetry. by eapply take_nil_inv.
    + rewrite <- Htake. simpl. rewrite IH; [apply take_drop |].
      rewrite length_drop.
      destruct it; simpl in *; [by rewrite take_nil in Htake | lia].
Qed.

Lemma chunks_of_concat size it :
  0 < size → concat (chunks_of size it) = it.
Proof. intros. by apply islices_concat. Qed.

Lemma islices_lookup fuel size it i :
  0 < size → length it ≤ fuel →
  islices fuel size it !! i =
    if decide (i * size < length it)
    then Some (take size (drop (i * size) it)) else None.
Proof.
  intros Hsize. revert it i.
  induction fuel as [|fuel IH]; intros it i Hfuel; simpl.
  - rewrite decide_False by lia. done.
  - destruct (take size it) as [|a x] eqn:Htake.
    + apply take_nil_inv in Htake as ->; [|done].
      rewrite decide_False by (simpl; lia). done.
    + rewrite <- Htake. assert (0 < length it).
      { destruct it; simpl; [by rewrite take_nil in Htake | lia]. }
      destruct i as [|i]; simpl.
      * by rewrite decide_True by lia.
      * rewrite IH by (rewrite length_drop; lia).
        rewrite length_drop, drop_drop.
        destruct (decide (i * size < length it - size)).
        -- by rewrite decide_True by lia.
        -- by rewrite decide_False by lia.
Qed.

Lemma chunks_of_lookup size it i :
  0 < size →
  chunks_of size it !! i =
    if decide (i * size < length it)
    then Some (take size (drop (i * size) it)) else None.
Proof. intros. by apply islices_lookup. Qed.

Lemma chunks_of_Forall_nonempty size it :
  0 < size → Forall (λ chunk, chunk ≠ []) (chunks_of size it).
Proof.
  intros Hsize. apply Forall_lookup. intros i chunk Hi.
  rewrite chunks_of_lookup in Hi by done.
  destruct (decide _) as [Hlt|]; [|done]. injection Hi as <-.
  intros Hnil%(f_equal length).
  rewrite length_take, length_drop in Hnil. simpl in Hnil. lia.
Qed.

Lemma chunks_of_nonempty size it :
  0 < size → it ≠ [] → chunks_of size it ≠ [].
Proof.
  intros Hsize Hit Hnil.
  pose proof (chunks_of_concat size it Hsize) as Hc.
  rewrite Hnil in Hc. done.
Qed.
End islices.

(** ** Pool.map returns the results in the order of the items *)

Section pool.
Context {A B : Type} (f : A → result B).

Lemma map_chunksize_pos len processes :
  0 < len → 0 < processes → 0 < map_chunksize len processes.
Proof.
  intros Hlen Hp. unfold map_chunksize.
  destruct (Nat.eqb_spec len 0) as [|_]; [lia |].
  destruct (Nat.eqb_spec (len `mod` (processes * 4)) 0) as [Hmod|]; [|lia].
  pose proof (Nat.div_mod_eq len (processes * 4)).
  destruct (len `div` (processes * 4)); [lia | lia].
Qed.

Lemma slots_nil chunksize (l' : list B) :
  slots chunksize [] l' = replicate (length l') None.
Proof.
  apply list_eq; intros j. unfold slots. rewrite list_lookup_imap.
  destruct (l' !! j) as [b|] eqn:Hj; simpl.
  - symmetry. apply lookup_replicate_2. by eapply lookup_lt_Some.
  - symmetry. apply lookup_replicate_None. by apply lookup_ge_None.
Qed.

Lemma slots_all chunksize reported (l' : list B) :
  (∀ j, j < length l' → j `div` chunksize ∈ reported) →
  slots chunksize reported l' = Some <$> l'.
Proof.
  intros Hall. apply list_eq; intros j. unfold slots.
  rewrite list_lookup_imap, list_lookup_fmap.
  destruct (l' !! j) as [b|] eqn:Hj; simpl; [|done].
  rewrite bool_decide_eq_true_2; [done |].
  apply Hall. by eapply lookup_lt_Some.
Qed.

Lemma slots_set chunksize reported (l' : list B) i :
  0 < chunksize →
  MapResult_set chunksize i
    (Ok (take chunksize (drop (i * chunksize) l')))
    (Collecting (slots chunksize reported l'))
  = Collecting (slots chunksize (i :: reported) l').
Proof.
  intros Hcs. simpl. f_equal. apply list_eq; intros j. unfold slots.
  set (k := Some <$> take chunksize (drop (i * chunksize) l')).
  assert (length k = chunksize `min` (length l' - i * chunksize)) as Hk.
  { unfold k. by rewrite length_fmap, length_take, length_drop. }
  destruct (decide (j < i * chunksize)) as [Hlt|Hge].
  { rewrite list_lookup_inserts_lt by done. rewrite !list_lookup_imap.
    destruct (l' !! j) as [b|]; simpl; [|done].
    assert (j `div` chunksize ≠ i) as Hne.
    { intros <-. pose proof (Nat.Div0.mul_div_le j chunksize). lia. }
    rewrite (bool_decide_ext (j `div` chunksize ∈ i :: reported)
               (j `div` chunksize ∈ reported));
      [done | rewrite elem_of_cons; tauto]. }
  destruct (decide (i * chunksize + length k ≤ j)) as [Hout|Hin].
  { rewrite list_lookup_inserts_ge by done. rewrite !list_lookup_imap.
    destruct (l' !! j) as [b|] eqn:Hj; simpl; [|done].
    apply lookup_lt_Some in Hj.
    assert (j `div` chunksize ≠ i) as Hne.
    { intros <-.
      pose proof (Nat.div_mod_eq j chunksize).
      pose proof (Nat.mod_upper_bound j chunksize). lia. }
    rewrite (bool_decide_ext (j `div` chunksize ∈ i :: reported)
               (j `div` chunksize ∈ reported));
      [done | rewrite elem_of_cons; tauto]. }
  rewrite list_lookup_inserts by (rewrite ?length_imap; lia).
  unfold k. rewrite list_lookup_fmap, lookup_take_lt by lia.
  rewrite lookup_drop, list_lookup_imap.
  replace (i * chunksize + (j - i * chunksize)) with j by lia.
  destruct (l' !! j) as [b|]; simpl; [|done].
  rewrite bool_decide_eq_true_2; [done |].
  assert (j `div` chunksize = i) as ->; [|by left].
  symmetry. apply (Nat.div_unique j chunksize i (j - i * chunksize)); lia.
Qed.

Context (l : list A) (processes : nat).
Let chunksize := map_chunksize (length l) processes.
Let outcomes := map_raise f <$> chunks_of chunksize l.

Lemma outcomes_lookup i :
  0 < chunksize →
  outcomes !! i =
    if decide (i * chunksize < length l)
    then Some (map_raise f (take chunksize (drop (i * chunksize) l)))
    else None.
Proof.
  intros Hcs. unfold outcomes.
  rewrite list_lookup_fmap, chunks_of_lookup by done.
  by destruct (decide _).
Qed.

Lemma handle_reports_Ok l' reported todo :
  0 < chunksize →
  Forall2 (λ x y, f x = Ok y) l l' →
  Forall (λ i, i < length outcomes) todo →
  foldl (handle_report chunksize outcomes)
    (Collecting (slots chunksize reported l')) todo
  = Collecting (slots chunksize (reverse todo ++ reported) l').
Proof.
  intros Hcs Hl'. revert reported.
  induction todo as [|i todo IH]; intros reported Htodo; simpl; [done |].
  apply Forall_cons in Htodo as [Hi Htodo].
  rewrite reverse_cons, <- app_assoc. simpl. rewrite <- IH by done. f_equal.
  unfold handle_report. apply lookup_lt_is_Some in Hi as [o Ho].
  rewrite Ho. rewrite outcomes_lookup in Ho by done.
  destruct (decide _); [|done]. injection Ho as <-.
  assert (map_raise f (take chunksize (drop (i * chunksize) l))
          = Ok (take chunksize (drop (i * chunksize) l'))) as ->.
  { apply map_raise_Ok. by apply Forall2_take, Forall2_drop. }
  by apply slots_set.
Qed.

Lemma handle_reports_Failed e todo :
  foldl (handle_report chunksize outcomes) (Failed e) todo = Failed e.
Proof.
  induction todo as [|i todo IH]; simpl; [done |].
  unfold handle_report at 2. by destruct (outcomes !! i) as [[]|].
Qed.

(** Unless every batch that reports succeeds, the result is the exception
    of a batch. *)
Lemma handle_reports_Raise _value todo i e :
  i ∈ todo → outcomes !! i = Some (Raise e) →
  ∃ i' e', outcomes !! i' = Some (Raise e') ∧
    foldl (handle_report chunksize outcomes) (Collecting _value) todo
    = Failed e'.
Proof.
  intros Hi Ho. revert _value.
  induction todo as [|i0 todo IH]; intros _value; simpl.
  { by apply elem_of_nil in Hi. }
  unfold handle_report at 2.
  destruct (outcomes !! i0) as [[res|e0]|] eqn:Ho0; simpl.
  - apply elem_of_cons in Hi as [->|Hi]; [congruence | by apply IH].
  - exists i0, e0. by rewrite handle_reports_Failed.
  - apply elem_of_cons in Hi as [->|Hi]; [congruence | by apply IH].
Qed.

Lemma completion_order_elem delay n i :
  i ∈ completion_order delay n ↔ i < n.
Proof.
  unfold completion_order. rewrite merge_sort_Permutation, elem_of_seq. lia.
Qed.

Lemma batch_of_item j :
  0 < chunksize → j < length l → j `div` chunksize < length outcomes.
Proof.
  intros Hcs Hj. apply lookup_lt_is_Some. rewrite outcomes_lookup by done.
  pose proof (Nat.Div0.mul_div_le j chunksize).
  rewrite decide_True by lia. by eexists.
Qed.

Lemma Pool_map_Ok delay l' :
  0 < processes →
  map_raise f l = Ok l' → Pool_map delay processes f l = Ok l'.
Proof.
  intros Hp Hl'. unfold Pool_map.
  destruct (Nat.eqb_spec processes 0) as [|_]; [lia |].
  fold chunksize. fold outcomes.
  replace (length (chunks_of chunksize l)) with (length outcomes)
    by apply length_fmap.
  apply map_raise_Ok in Hl'.
  pose proof (Forall2_length _ _ _ Hl') as Hlen.
  destruct (decide (l = [])) as [->|Hne].
  { apply Forall2_nil_inv_l in Hl' as ->. done. }
  assert (0 < chunksize) as Hcs.
  { apply map_chunksize_pos; [|done]. destruct l; simpl; [done | lia]. }
  rewrite Hlen, <- slots_nil with (chunksize := chunksize).
  rewrite handle_reports_Ok; [|done..|].
  - rewrite slots_all.
    + simpl. by rewrite mapM_fmap_Some.
    + intros j Hj. rewrite app_nil_r, elem_of_reverse.
      apply completion_order_elem, batch_of_item; [done | lia].
  - apply Forall_forall. intros i. by rewrite completion_order_elem.
Qed.

Lemma Pool_map_Raise delay :
  0 < processes →
  is_Raise (map_raise f l) →
  ∃ x e, x ∈ l ∧ f x = Raise e ∧ Pool_map delay processes f l = Raise e.
Proof.
  intros Hp [e0 He0]. unfold Pool_map.
  destruct (Nat.eqb_spec processes 0) as [|_]; [lia |].
  fold chunksize. fold outcomes.
  replace (length (chunks_of chunksize l)) with (length outcomes)
    by apply length_fmap.
  apply map_raise_Raise in He0 as (x & Hx & He0).
  apply list_elem_of_lookup in Hx as [j Hj].
  assert (0 < chunksize) as Hcs.
  { apply map_chunksize_pos; [|done]. apply lookup_lt_Some in Hj. lia. }
  pose proof (lookup_lt_Some _ _ _ Hj) as Hjlt.
  pose proof (Nat.Div0.mul_div_le j chunksize).
  pose proof (Nat.div_mod_eq j chunksize).
  pose proof (Nat.mod_upper_bound j chunksize).
  set (i := j `div` chunksize) in *.
  assert (is_Raise (map_raise f (take chunksize (drop (i * chunksize) l))))
    as [e He].
  { apply map_raise_fails with x; [|by eexists].
    apply list_elem_of_lookup. exists (j - i * chunksize).
    rewrite lookup_take_lt, lookup_drop by lia.
    by replace (i * chunksize + (j - i * chunksize)) with j by lia. }
  destruct (handle_reports_Raise (replicate (length l) None)
              (completion_order delay (length outcomes)) i e)
    as (i' & e' & Ho' & ->).
  { apply completion_order_elem, batch_of_item; done. }
  { rewrite outcomes_lookup, decide_True by lia. by rewrite He. }
  rewrite outcomes_lookup in Ho' by done.
  destruct (decide _); [|done]. injection Ho' as Ho'.
  apply map_raise_Raise in Ho' as (x' & Hx' & He').
  exists x', e'. split_and!; [|done..].
  by eapply subseteq_drop, subseteq_take.
Qed.

Lemma Pool_map_no_process delay :
  Pool_map delay 0 f l = Raise ValueError.
Proof. done. Qed.
End pool.

(** ** The reader *)

Section reader.
Context {R : Type}.
Implicit Types table : list R.

Lemma skip_lines_seq_ge lineno a n table :
  a ≤ lineno →
  skip_lines lineno (seq a n) table = drop (a + n - lineno) table.
Proof.
  revert lineno. induction table as [|r table IH]; intros lineno Hle; simpl.
  - by rewrite drop_nil.
  - case_bool_decide as Hin; rewrite elem_of_seq in Hin.
    + rewrite IH by lia.
      by replace (a + n - lineno) with (S (a + n - S lineno)) by lia.
    + rewrite IH by lia.
      replace (a + n - S lineno) with 0 by lia.
      by replace (a + n - lineno) with 0 by lia.
Qed.

Lemma skip_lines_seq lineno a n table :
  lineno ≤ a →
  skip_lines lineno (seq a n) table
  = take (a - lineno) table ++ drop (a + n - lineno) table.
Proof.
  revert lineno. induction table as [|r table IH]; intros lineno Hle.
  - by rewrite take_nil, drop_nil.
  - destruct (decide (lineno = a)) as [->|Hne].
    { rewrite skip_lines_seq_ge by done. by rewrite Nat.sub_diag. }
    simpl. rewrite bool_decide_eq_false_2 by (rewrite elem_of_seq; lia).
    rewrite IH by lia.
    replace (a - lineno) with (S (a - S lineno)) by lia.
    by replace (a + n - lineno) with (S (a + n - S lineno)) by lia.
Qed.

(** With [skiprows=range(1, n + 1)] the reader keeps line 0 and the lines
    from [n + 1] on. *)
Lemma skip_lines_range n table :
  skip_lines 0 (range 1 (n + 1)) table = take 1 table ++ drop (S n) table.
Proof.
  unfold range. rewrite skip_lines_seq by lia.
  by replace (n + 1 - 1) with n by lia.
Qed.

Lemma read_csv_range n chunksize table :
  0 < chunksize → table ≠ [] →
  read_csv table chunksize (range 1 (n + 1))
  = Ok (chunks_of chunksize (take 1 table ++ drop (S n) table)).
Proof.
  intros Hcs Hne. unfold read_csv.
  destruct (Nat.eqb_spec chunksize 0) as [|_]; [lia |].
  rewrite skip_lines_range. by destruct table.
Qed.

Lemma read_csv_all chunksize table :
  0 < chunksize → table ≠ [] →
  read_csv table chunksize (range 1 (0 + 1)) = Ok (chunks_of chunksize table).
Proof.
  intros. rewrite read_csv_range by done. by destruct table.
Qed.
End reader.

(** ** The writer and the loop *)

Lemma written_written old rows1 rows2 :
  written (Some (written old rows1)) rows2 = written old (rows1 ++ rows2).
Proof.
  destruct old as [f|]; simpl; by rewrite fmap_app, ?app_assoc.
Qed.

Lemma append_output_run outpath output (σ : fs) :
  append_output outpath output σ
  = (Ok tt, <[outpath := written (σ !! outpath) output]> σ).
Proof.
  unfold append_output, mbind, M_bind, os_path_exists, to_csv.
  by destruct (σ !! outpath) as [f|] eqn:Hf.
Qed.

Section loop.
Context {A : Type} (g : nat → A → result (list out_row)).
Context (outpath : string) (body : nat → A → M unit).
Hypothesis body_eq : ∀ k chunk σ,
  body k chunk σ = (output ← lift (g k chunk); append_output outpath output) σ.

Lemma body_Ok k chunk output (σ : fs) :
  g k chunk = Ok output →
  body k chunk σ = (Ok tt, <[outpath := written (σ !! outpath) output]> σ).
Proof.
  intros Hg. rewrite body_eq. unfold mbind, M_bind, lift. rewrite Hg.
  apply append_output_run.
Qed.

Lemma body_Raise k chunk e (σ : fs) :
  g k chunk = Raise e → body k chunk σ = (Raise e, σ).
Proof.
  intros Hg. rewrite body_eq. unfold mbind, M_bind, lift. by rewrite Hg.
Qed.

(** Chunks that are all transformed are appended one after the other;
    only the write that creates the file puts a header. *)
Lemma for_chunks_Ok k chunks outs (σ : fs) :
  Forall2 (λ chunk output, ∀ k, g k chunk = Ok output) chunks outs →
  chunks ≠ [] →
  for_chunks body k chunks σ
  = (Ok tt, <[outpath := written (σ !! outpath) (concat outs)]> σ).
Proof.
  intros Hall. revert k σ.
  induction Hall as [|chunk output chunks outs Hg Hall IH]; intros k σ Hne;
    [done |].
  simpl. unfold mbind, M_bind. rewrite (body_Ok _ _ output) by done.
  destruct chunks as [|chunk' chunks].
  - apply Forall2_nil_inv_l in Hall as ->. simpl. by rewrite app_nil_r.
  - rewrite IH by done. rewrite lookup_insert_eq, insert_insert_eq.
    by rewrite written_written.
Qed.

(** The loop stops at the first chunk whose transformation raises, in the
    state that the chunks before it left. *)
Lemma for_chunks_Raise k pre bad post e (σ σ' : fs) :
  for_chunks body k pre σ = (Ok tt, σ') →
  g (k + length pre) bad = Raise e →
  for_chunks body k (pre ++ bad :: post) σ = (Raise e, σ').
Proof.
  revert k σ. induction pre as [|chunk pre IH]; intros k σ; simpl.
  - intros [= <-] Hg. rewrite Nat.add_0_r in Hg.
    unfold mbind, M_bind. by rewrite (body_Raise _ _ e).
  - unfold mbind, M_bind.
    destruct (body k chunk σ) as [[[]|e'] σ1]; [|done].
    intros Hpre Hg. apply IH; [done |].
    by replace (S k + length pre) with (k + S (length pre)) by lia.
Qed.
End loop.

(** ** The loop bodies against the row transformers *)

Section transformers.
Context (unpack : list byte → result string).
Context (universal_extract_paragraphs : string → result (list string)).
Context (json_dumps : list string → string).

#[local] Abbreviation unpack_fromhex' := (unpack_fromhex unpack).
#[local] Abbreviation _extract_then_dump' :=
  (_extract_then_dump unpack universal_extract_paragraphs json_dumps).
#[local] Abbreviation AbstractTransformer' :=
  (AbstractTransformer unpack json_dumps).
#[local] Abbreviation FulltextTransformer' :=
  (FulltextTransformer unpack universal_extract_paragraphs json_dumps).
#[local] Abbreviation abstracts_output' :=
  (abstracts_output unpack json_dumps).
#[local] Abbreviation fulltexts_output' :=
  (fulltexts_output unpack universal_extract_paragraphs json_dumps).
#[local] Abbreviation abstracts_body' :=
  (abstracts_body unpack json_dumps).
#[local] Abbreviation fulltexts_body' :=
  (fulltexts_body unpack universal_extract_paragraphs json_dumps).

Lemma AbstractTransformer_Ok row o :
  AbstractTransformer' row = Ok o ↔
  ∃ t a, unpack_fromhex' (Abstracts.title row) = Ok t ∧
         unpack_fromhex' (Abstracts.abstract row) = Ok a ∧
         o = OutRow (Abstracts.text_ref_id row) (Abstracts.tc_id1 row)
               (Some (Abstracts.tc_id2 row)) "abstract" (json_dumps [t; a]).
Proof.
  unfold AbstractTransformer, mbind, result_bind.
  destruct (unpack_fromhex' (Abstracts.abstract row)) as [a|];
    destruct (unpack_fromhex' (Abstracts.title row)) as [t|];
    split; try done; try (intros (? & ? & ? & ? & ?); done).
  - intros [= <-]. by exists t, a.
  - by intros (? & ? & [= <-] & [= <-] & ->).
Qed.

Lemma AbstractTransformer_is_Ok row :
  is_Ok (unpack_fromhex' (Abstracts.title row)) →
  is_Ok (unpack_fromhex' (Abstracts.abstract row)) →
  is_Ok (AbstractTransformer' row).
Proof.
  intros [t Ht] [a Ha]. eexists. apply AbstractTransformer_Ok. by exists t, a.
Qed.

Lemma AbstractTransformer_is_Raise row :
  is_Raise (unpack_fromhex' (Abstracts.title row)) ∨
  is_Raise (unpack_fromhex' (Abstracts.abstract row)) →
  is_Raise (AbstractTransformer' row).
Proof.
  destruct (AbstractTransformer' row) as [o|e] eqn:Ho; [|by eexists].
  apply AbstractTransformer_Ok in Ho as (t & a & Ht & Ha & _).
  intros [[e He]|[e He]]; congruence.
Qed.

Lemma FulltextTransformer_Ok row o :
  FulltextTransformer' row = Ok o ↔
  ∃ bs markup paragraphs,
    bytes_fromhex (Fulltexts.fulltext row) = Ok bs ∧
    unpack bs = Ok markup ∧
    universal_extract_paragraphs markup = Ok paragraphs ∧
    o = OutRow (Fulltexts.text_ref_id row) (Fulltexts.tc_id1 row)
          None "fulltext" (json_dumps paragraphs).
Proof.
  unfold FulltextTransformer, mbind, result_bind.
  destruct (bytes_fromhex (Fulltexts.fulltext row)) as [bs|] eqn:Hbs.
  2: { split; [done | by intros (? & ? & ? & ? & _)]. }
  destruct (unpack bs) as [markup|] eqn:Hm.
  2: { split; [done | intros (? & ? & ? & [= <-] & ? & _); congruence]. }
  destruct (universal_extract_paragraphs markup) as [ps|] eqn:Hps.
  2: { split; [done |].
       intros (? & ? & ? & [= <-] & ? & ? & _); congruence. }
  split.
  - intros [= <-]. by exists bs, markup, ps.
  - intros (? & ? & ? & [= <-] & ? & ? & ->). congruence.
Qed.

Lemma FulltextTransformer_dump row :
  FulltextTransformer' row
  = (c ← _extract_then_dump' (Fulltexts.fulltext row);
     Ok (OutRow (Fulltexts.text_ref_id row) (Fulltexts.tc_id1 row)
           None "fulltext" c)).
Proof.
  unfold FulltextTransformer, _extract_then_dump, mbind, result_bind.
  destruct (bytes_fromhex _); [|done]. destruct (unpack _); [|done].
  by destruct (universal_extract_paragraphs _).
Qed.

Lemma FulltextTransformer_is_Ok row :
  is_Ok (_extract_then_dump' (Fulltexts.fulltext row)) ↔
  is_Ok (FulltextTransformer' row).
Proof.
  rewrite FulltextTransformer_dump. unfold mbind, result_bind.
  destruct (_extract_then_dump' _); split; intros [? ?];
    (done || by eexists).
Qed.

Lemma FulltextTransformer_is_Raise row :
  is_Raise (_extract_then_dump' (Fulltexts.fulltext row)) ↔
  is_Raise (FulltextTransformer' row).
Proof.
  rewrite FulltextTransformer_dump. unfold mbind, result_bind.
  destruct (_extract_then_dump' _); split; intros [? ?];
    (done || by eexists).
Qed.

(** The column-wise rewriting of an abstracts chunk gives the rows that
    the row transformer gives, and raises when it raises on some row. *)
Lemma abstracts_columns_rows chunk :
  match (abstract ← map_raise unpack_fromhex' (Abstracts.abstract <$> chunk);
         title ← map_raise unpack_fromhex' (Abstracts.title <$> chunk);
         Ok (zip_with
               (λ row c,
                  OutRow (Abstracts.text_ref_id row) (Abstracts.tc_id1 row)
                    (Some (Abstracts.tc_id2 row)) "abstract" c)
               chunk (zip_with (λ t a, json_dumps [t; a]) title abstract))),
        map_raise AbstractTransformer' chunk with
  | Ok output, Ok rows => output = rows
  | Raise _, Raise _ => True
  | _, _ => False
  end.
Proof.
  induction chunk as [|row chunk IH]; [done |].
  rewrite !fmap_cons. cbn [map_raise].
  generalize dependent (map_raise unpack_fromhex'
                          (Abstracts.abstract <$> chunk)).
  generalize dependent (map_raise unpack_fromhex'
                          (Abstracts.title <$> chunk)).
  generalize dependent (map_raise AbstractTransformer' chunk).
  intros rows title abstract IH.
  unfold AbstractTransformer, mbind, result_bind in *.
  destruct (unpack_fromhex' (Abstracts.abstract row)) as [a|],
    abstract, (unpack_fromhex' (Abstracts.title row)) as [t|], title, rows;
    simpl in *; try done; by subst.
Qed.

Lemma abstracts_output_rows chunk :
  chunk ≠ [] →
  match abstracts_output' chunk, map_raise AbstractTransformer' chunk with
  | Ok output, Ok rows => output = rows
  | Raise _, Raise _ => True
  | _, _ => False
  end.
Proof.
  intros Hne. pose proof (abstracts_columns_rows chunk) as H.
  unfold abstracts_output. destruct chunk as [|row chunk]; [done |].
  unfold mbind, result_bind in *. cbn [set_new_column].
  destruct (map_raise unpack_fromhex' (Abstracts.abstract <$> row :: chunk));
    [|exact H].
  destruct (map_raise unpack_fromhex' (Abstracts.title <$> row :: chunk));
    exact H.
Qed.

(** An empty chunk, which the reader yields for an empty table, makes the
    body raise. *)
Lemma abstracts_output_nil : abstracts_output' [] = Raise ValueError.
Proof. done. Qed.

Lemma abstracts_output_Ok chunk rows :
  chunk ≠ [] →
  map_raise AbstractTransformer' chunk = Ok rows →
  abstracts_output' chunk = Ok rows.
Proof.
  intros Hne Hrows. pose proof (abstracts_output_rows chunk Hne) as H.
  rewrite Hrows in H. destruct (abstracts_output' chunk); [by subst | done].
Qed.

Lemma abstracts_output_Raise chunk :
  is_Raise (map_raise AbstractTransformer' chunk) →
  is_Raise (abstracts_output' chunk).
Proof.
  intros [e He]. destruct chunk as [|row chunk]; [done |].
  pose proof (abstracts_output_rows (row :: chunk) ltac:(done)) as H.
  rewrite He in H. destruct (abstracts_output' _); [done | by eexists].
Qed.

(** The content column of a fulltexts chunk, put next to the other
    columns by position, gives the rows of the row transformer. *)
Lemma fulltexts_content_rows chunk :
  match map_raise _extract_then_dump' (Fulltexts.fulltext <$> chunk),
        map_raise FulltextTransformer' chunk with
  | Ok fulltexts, Ok rows =>
      zip_with (λ row c,
                  OutRow (Fulltexts.text_ref_id row) (Fulltexts.tc_id1 row)
                    None "fulltext" c) chunk fulltexts = rows
  | Raise _, Raise _ => True
  | _, _ => False
  end.
Proof.
  induction chunk as [|row chunk IH]; [done |].
  rewrite fmap_cons. cbn [map_raise]. rewrite FulltextTransformer_dump.
  generalize dependent (map_raise _extract_then_dump'
                          (Fulltexts.fulltext <$> chunk)).
  generalize dependent (map_raise FulltextTransformer' chunk).
  intros rows fulltexts IH. unfold mbind, result_bind in *.
  destruct (_extract_then_dump' (Fulltexts.fulltext row)), fulltexts, rows;
    simpl in *; try done; by subst.
Qed.

Lemma fulltexts_output_Ok delay n_jobs chunk rows :
  0 < n_jobs → chunk ≠ [] →
  map_raise FulltextTransformer' chunk = Ok rows →
  fulltexts_output' delay n_jobs chunk = Ok rows.
Proof.
  intros Hjobs Hne Hrows. pose proof (fulltexts_content_rows chunk) as H.
  rewrite Hrows in H. unfold fulltexts_output.
  destruct (map_raise _extract_then_dump' _) as [fulltexts|] eqn:Hf; [|done].
  rewrite (Pool_map_Ok _ _ _ _ fulltexts) by done.
  unfold mbind, result_bind. destruct chunk; [done |]. by subst.
Qed.

(** An empty chunk, which the reader yields for an empty table, makes the
    body raise: in [Pool(0)], or else where [tc_id2] is set. *)
Lemma fulltexts_output_nil delay n_jobs :
  fulltexts_output' delay n_jobs [] = Raise ValueError.
Proof.
  destruct n_jobs as [|n]; [done |]. unfold fulltexts_output.
  by rewrite (Pool_map_Ok _ _ _ _ []) by (done || lia).
Qed.

Lemma fulltexts_output_Raise delay n_jobs chunk :
  is_Raise (map_raise FulltextTransformer' chunk) →
  is_Raise (fulltexts_output' delay n_jobs chunk).
Proof.
  intros [e He]. pose proof (fulltexts_content_rows chunk) as H.
  rewrite He in H. unfold fulltexts_output.
  destruct (map_raise _extract_then_dump' _) as [|e'] eqn:Hf; [done |].
  destruct n_jobs as [|n].
  { rewrite Pool_map_no_process. by eexists. }
  destruct (Pool_map_Raise _extract_then_dump' (Fulltexts.fulltext <$> chunk)
              (S n) delay) as (x & e'' & _ & _ & ->); [lia | by eexists |].
  by eexists.
Qed.

(** *** The loops *)

Lemma abstracts_loop_Ok outpath chunksize k table rows (σ : fs) :
  0 < chunksize → table ≠ [] →
  map_raise AbstractTransformer' table = Ok rows →
  for_chunks (abstracts_body' outpath) k (chunks_of chunksize table) σ
  = (Ok tt, <[outpath := written (σ !! outpath) rows]> σ).
Proof.
  intros Hcs Hne Hrows.
  rewrite <- (chunks_of_concat chunksize table) in Hrows by done.
  apply map_raise_concat in Hrows as (outs & Houts & <-).
  apply (for_chunks_Ok (λ _, abstracts_output')); [done | |].
  - eapply Forall2_impl;
      [by apply Forall2_Forall_l; [apply chunks_of_Forall_nonempty |] |].
    intros chunk o [Hchunk Ho] _. by apply abstracts_output_Ok.
  - by apply chunks_of_nonempty.
Qed.

Lemma fulltexts_loop_Ok delay n_jobs outpath chunksize k table rows
    (σ : fs) :
  0 < chunksize → 0 < n_jobs → table ≠ [] →
  map_raise FulltextTransformer' table = Ok rows →
  for_chunks (fulltexts_body' delay n_jobs outpath) k
    (chunks_of chunksize table) σ
  = (Ok tt, <[outpath := written (σ !! outpath) rows]> σ).
Proof.
  intros Hcs Hjobs Hne Hrows.
  rewrite <- (chunks_of_concat chunksize table) in Hrows by done.
  apply map_raise_concat in Hrows as (outs & Houts & <-).
  apply (for_chunks_Ok (λ k, fulltexts_output' (delay k) n_jobs));
    [done | |].
  - eapply Forall2_impl;
      [by apply Forall2_Forall_l; [apply chunks_of_Forall_nonempty |] |].
    intros chunk o [Hchunk Ho] k'. by apply fulltexts_output_Ok.
  - by apply chunks_of_nonempty.
Qed.

(** *** What the skip counter is when the loop starts *)

Lemma fulltexts_run_absent delay inpath outpath chunksize n_jobs restart
    (σ : fs) :
  σ !! outpath = None →
  process_raw_fulltexts_csv unpack universal_extract_paragraphs json_dumps
    delay inpath outpath chunksize n_jobs restart σ
  = (reader ← lift (read_csv inpath chunksize (range 1 (0 + 1)));
     for_chunks (fulltexts_body' delay n_jobs outpath) 0 reader) σ.
Proof.
  intros Hσ. unfold process_raw_fulltexts_csv.
  unfold mbind, M_bind, mret, M_ret, os_path_exists. by rewrite Hσ.
Qed.

Lemma fulltexts_run_restart delay inpath outpath chunksize n_jobs f
    (σ : fs) :
  σ !! outpath = Some f →
  process_raw_fulltexts_csv unpack universal_extract_paragraphs json_dumps
    delay inpath outpath chunksize n_jobs true σ
  = (reader ← lift (read_csv inpath chunksize (range 1 (length f + 1)));
     for_chunks (fulltexts_body' delay n_jobs outpath) 0 reader) σ.
Proof.
  intros Hσ. unfold process_raw_fulltexts_csv.
  unfold mbind, M_bind, mret, M_ret, os_path_exists, _get_line_count.
  rewrite Hσ. simpl. by rewrite Hσ.
Qed.

Lemma fulltexts_run_overwrite delay inpath outpath chunksize n_jobs f
    (σ : fs) :
  σ !! outpath = Some f →
  process_raw_fulltexts_csv unpack universal_extract_paragraphs json_dumps
    delay inpath outpath chunksize n_jobs false σ
  = (reader ← lift (read_csv inpath chunksize (range 1 (0 + 1)));
     for_chunks (fulltexts_body' delay n_jobs outpath) 0 reader)
      (delete outpath σ).
Proof.
  intros Hσ. unfold process_raw_fulltexts_csv.
  unfold mbind, M_bind, mret, M_ret, os_path_exists, os_remove.
  rewrite Hσ. simpl. by rewrite Hσ.
Qed.

Lemma abstracts_run_restart inpath outpath chunksize f (σ : fs) :
  σ !! outpath = Some f →
  process_raw_abstracts_csv unpack json_dumps
    inpath outpath chunksize true σ
  = (reader ← lift (read_csv inpath chunksize (range 1 (length f + 1)));
     for_chunks (abstracts_body' outpath) 0 reader) σ.
Proof.
  intros Hσ. unfold process_raw_abstracts_csv.
  unfold mbind, M_bind, mret, M_ret, os_path_exists, _get_line_count.
  rewrite Hσ. simpl. by rewrite Hσ.
Qed.
End transformers.

(** ** The pipelines *)

Section runs.
Context (unpack : list byte → result string).
Context (universal_extract_paragraphs : string → result (list string)).
Context (json_dumps : list string → string).

#[local] Abbreviation unpack_fromhex' := (unpack_fromhex unpack).
#[local] Abbreviation _extract_then_dump' :=
  (_extract_then_dump unpack universal_extract_paragraphs json_dumps).
#[local] Abbreviation AbstractTransformer' :=
  (AbstractTransformer unpack json_dumps).
#[local] Abbreviation FulltextTransformer' :=
  (FulltextTransformer unpack universal_extract_paragraphs json_dumps).
#[local] Abbreviation abstracts_body' :=
  (abstracts_body unpack json_dumps).
#[local] Abbreviation fulltexts_body' :=
  (fulltexts_body unpack universal_extract_paragraphs json_dumps).
#[local] Abbreviation process_raw_abstracts_csv' :=
  (process_raw_abstracts_csv unpack json_dumps).
#[local] Abbreviation process_raw_fulltexts_csv' :=
  (process_raw_fulltexts_csv unpack universal_extract_paragraphs json_dumps).

Lemma fulltexts_all_Ok table :
  Forall (λ row, is_Ok (_extract_then_dump' (Fulltexts.fulltext row))) table →
  ∃ rows, map_raise FulltextTransformer' table = Ok rows.
Proof.
  intros Hall. apply map_raise_total. intros row Hrow.
  apply FulltextTransformer_is_Ok. by eapply Forall_forall in Hall.
Qed.

Lemma fulltexts_rows_shape table rows :
  map_raise FulltextTransformer' table = Ok rows →
  length rows = length table ∧
  ∀ i row, table !! i = Some row →
    ∃ bs markup paragraphs,
      bytes_fromhex (Fulltexts.fulltext row) = Ok bs ∧
      unpack bs = Ok markup ∧
      universal_extract_paragraphs markup = Ok paragraphs ∧
      rows !! i = Some (OutRow (Fulltexts.text_ref_id row)
                          (Fulltexts.tc_id1 row) None "fulltext"
                          (json_dumps paragraphs)).
Proof.
  intros Hrows. split; [by eapply map_raise_length |].
  intros i row Hi. apply map_raise_Ok in Hrows.
  destruct (Forall2_lookup_l _ _ _ _ _ Hrows Hi) as (o & Ho & Hrow).
  apply FulltextTransformer_Ok in Hrow as (bs & m & ps & ? & ? & ? & ->).
  by exists bs, m, ps.
Qed.

(** A run that starts without the output file, or that removes it. *)
Lemma fulltexts_run_fresh delay inpath outpath chunksize n_jobs restart
    rows (σ : fs) :
  σ !! outpath = None ∨ restart = false →
  0 < chunksize → 0 < n_jobs → inpath ≠ [] →
  map_raise FulltextTransformer' inpath = Ok rows →
  process_raw_fulltexts_csv' delay inpath outpath chunksize n_jobs restart σ
  = (Ok tt, <[outpath := Header :: (Data <$> rows)]> σ).
Proof.
  intros Hfresh Hcs Hjobs Hne Hrows.
  destruct (σ !! outpath) as [f|] eqn:Hσ.
  - destruct Hfresh as [? | ->]; [done |].
    erewrite fulltexts_run_overwrite by done.
    unfold mbind, M_bind, lift. rewrite read_csv_all by done.
    erewrite fulltexts_loop_Ok by done.
    by rewrite lookup_delete_eq, insert_delete_eq.
  - rewrite fulltexts_run_absent by done.
    unfold mbind, M_bind, lift. rewrite read_csv_all by done.
    erewrite fulltexts_loop_Ok by done.
    by rewrite Hσ.
Qed.

(** A run with [restart=True] on an existing file of [length f] lines
    reads line 0 again and then the lines from [length f + 1] on. *)
Lemma fulltexts_run_resumed delay inpath outpath chunksize n_jobs f rows
    (σ : fs) :
  σ !! outpath = Some f →
  0 < chunksize → 0 < n_jobs → inpath ≠ [] →
  map_raise FulltextTransformer'
    (take 1 inpath ++ drop (S (length f)) inpath) = Ok rows →
  process_raw_fulltexts_csv' delay inpath outpath chunksize n_jobs true σ
  = (Ok tt, <[outpath := f ++ (Data <$> rows)]> σ).
Proof.
  intros Hσ Hcs Hjobs Hne Hrows.
  erewrite fulltexts_run_restart by done.
  unfold mbind, M_bind, lift. rewrite read_csv_range by done.
  erewrite fulltexts_loop_Ok; [| done | done | | done].
  - by rewrite Hσ.
  - by destruct inpath.
Qed.

Lemma abstracts_run_resumed inpath outpath chunksize f rows (σ : fs) :
  σ !! outpath = Some f →
  0 < chunksize → inpath ≠ [] →
  map_raise AbstractTransformer'
    (take 1 inpath ++ drop (S (length f)) inpath) = Ok rows →
  process_raw_abstracts_csv' inpath outpath chunksize true σ
  = (Ok tt, <[outpath := f ++ (Data <$> rows)]> σ).
Proof.
  intros Hσ Hcs Hne Hrows.
  erewrite abstracts_run_restart by done.
  unfold mbind, M_bind, lift. rewrite read_csv_range by done.
  erewrite abstracts_loop_Ok; [| done | | done].
  - by rewrite Hσ.
  - by destruct inpath.
Qed.

(** A restart on an output file that holds the header and the first [n]
    rows: row 0 is appended again, and the rows [n] and [n + 1] are left
    out.  With [n] the number of input rows this is a second run on a
    complete output. *)
Lemma fulltexts_resume_after delay inpath outpath chunksize n_jobs rows n
    (σ : fs) :
  0 < chunksize → 0 < n_jobs → inpath ≠ [] → n ≤ length inpath →
  map_raise FulltextTransformer' inpath = Ok rows →
  process_raw_fulltexts_csv' delay inpath outpath chunksize n_jobs true
    (<[outpath := Header :: (Data <$> take n rows)]> σ)
  = (Ok tt,
     <[outpath := Header :: (Data <$> take n rows ++ take 1 rows
                                      ++ drop (n + 2) rows)]> σ).
Proof.
  intros Hcs Hjobs Hne Hn Hrows.
  pose proof (map_raise_length _ _ _ Hrows) as Hlen.
  apply map_raise_Ok in Hrows.
  rewrite fulltexts_run_resumed
    with (f := Header :: (Data <$> take n rows))
         (rows := take 1 rows ++ drop (n + 2) rows).
  - rewrite insert_insert_eq. by rewrite !fmap_app.
  - apply lookup_insert_eq.
  - done.
  - done.
  - done.
  - simpl. rewrite length_fmap, length_take, Nat.min_l by lia.
    apply map_raise_Ok, Forall2_app; [by apply Forall2_take |].
    replace (S (S n)) with (n + 2) by lia. by apply Forall2_drop.
Qed.

(** With [restart=False] the fulltexts pipeline starts over: the run on
    an existing file is the run on the file system without that file. *)
Lemma fulltexts_overwrite_as_first_run delay inpath outpath chunksize
    n_jobs f (σ : fs) :
  σ !! outpath = Some f →
  process_raw_fulltexts_csv' delay inpath outpath chunksize n_jobs false σ
  = process_raw_fulltexts_csv' delay inpath outpath chunksize n_jobs false
      (delete outpath σ).
Proof.
  intros Hσ. erewrite fulltexts_run_overwrite by done.
  by rewrite fulltexts_run_absent by apply lookup_delete_eq.
Qed.

(** Every row of a chunk with rows that the abstracts loop body handles
    comes out as one row, at the same position: same text_ref_id, tc_id1
    and tc_id2, text_type 'abstract', and as content the json dump of the
    list [title; abstract] of the two unpacked hex columns.  The chunk is
    appended to the output file. *)
Lemma abstracts_body_emits outpath k chunk (σ : fs) :
  chunk ≠ [] →
  Forall (λ row, is_Ok (unpack_fromhex' (Abstracts.title row)) ∧
                 is_Ok (unpack_fromhex' (Abstracts.abstract row))) chunk →
  ∃ output,
    abstracts_body' outpath k chunk σ
    = (Ok tt, <[outpath := written (σ !! outpath) output]> σ) ∧
    length output = length chunk ∧
    ∀ i row, chunk !! i = Some row →
      ∃ t a,
        unpack_fromhex' (Abstracts.title row) = Ok t ∧
        unpack_fromhex' (Abstracts.abstract row) = Ok a ∧
        output !! i = Some (OutRow (Abstracts.text_ref_id row)
                              (Abstracts.tc_id1 row)
                              (Some (Abstracts.tc_id2 row)) "abstract"
                              (json_dumps [t; a])).
Proof.
  intros Hne Hall.
  destruct (map_raise_total AbstractTransformer' chunk) as [output Hout].
  { intros row Hrow. eapply Forall_forall in Hall as [? ?]; [|done].
    by apply AbstractTransformer_is_Ok. }
  exists output. split_and!.
  - apply (body_Ok (λ _, abstracts_output unpack json_dumps)); [done |].
    by apply abstracts_output_Ok.
  - by eapply map_raise_length.
  - intros i row Hi. apply map_raise_Ok in Hout.
    destruct (Forall2_lookup_l _ _ _ _ _ Hout Hi) as (o & Ho & Hrow).
    apply AbstractTransformer_Ok in Hrow as (t & a & ? & ? & ->).
    by exists t, a.
Qed.

(** Every row of a chunk with rows that the fulltexts loop body handles
    comes out as one row, at the same position: same text_ref_id and
    tc_id1, tc_id2 None, text_type 'fulltext', and as content the json dump
    of the paragraphs extracted from the unpacked hex column; whatever the
    number of workers and the order in which they finish.  The chunk is
    appended to the output file. *)
Lemma fulltexts_body_emits delay n_jobs outpath k chunk (σ : fs) :
  0 < n_jobs → chunk ≠ [] →
  Forall (λ row, is_Ok (_extract_then_dump' (Fulltexts.fulltext row)))
    chunk →
  ∃ output,
    fulltexts_body' delay n_jobs outpath k chunk σ
    = (Ok tt, <[outpath := written (σ !! outpath) output]> σ) ∧
    length output = length chunk ∧
    ∀ i row, chunk !! i = Some row →
      ∃ bs markup paragraphs,
        bytes_fromhex (Fulltexts.fulltext row) = Ok bs ∧
        unpack bs = Ok markup ∧
        universal_extract_paragraphs markup = Ok paragraphs ∧
        output !! i = Some (OutRow (Fulltexts.text_ref_id row)
                              (Fulltexts.tc_id1 row) None "fulltext"
                              (json_dumps paragraphs)).
Proof.
  intros Hjobs Hne Hall.
  destruct (fulltexts_all_Ok chunk Hall) as [output Hout].
  exists output. split.
  - apply (body_Ok (λ k, fulltexts_output unpack
                           universal_extract_paragraphs json_dumps
                           (delay k) n_jobs)); [done |].
    by apply fulltexts_output_Ok.
  - by apply fulltexts_rows_shape.
Qed.

(** C7. When a chunk holds a row on which hex decoding, unpacking or
    paragraph extraction raises, the loop ends with an exception in the
    very state the chunks before it left: no row of that chunk, and no
    later chunk, is written.  Both pipelines. *)
Theorem failing_chunk_not_written :
  (∀ outpath k pre bad post (σ σ' : fs),
     for_chunks (abstracts_body' outpath) k pre σ = (Ok tt, σ') →
     Exists (λ row, is_Raise (unpack_fromhex' (Abstracts.title row)) ∨
                    is_Raise (unpack_fromhex' (Abstracts.abstract row)))
       bad →
     ∃ e, for_chunks (abstracts_body' outpath) k (pre ++ bad :: post) σ
          = (Raise e, σ')) ∧
  (∀ delay n_jobs outpath k pre bad post (σ σ' : fs),
     for_chunks (fulltexts_body' delay n_jobs outpath) k pre σ
     = (Ok tt, σ') →
     Exists (λ row, is_Raise (_extract_then_dump' (Fulltexts.fulltext row)))
       bad →
     ∃ e, for_chunks (fulltexts_body' delay n_jobs outpath) k
            (pre ++ bad :: post) σ
          = (Raise e, σ')).
Proof.
  split.
  - intros outpath k pre bad post σ σ' Hpre Hbad.
    destruct (abstracts_output_Raise unpack json_dumps bad) as [e He].
    { apply Exists_exists in Hbad as (row & Hrow & Hraise).
      apply map_raise_fails with row; [done |].
      by apply AbstractTransformer_is_Raise. }
    exists e.
    by apply (for_chunks_Raise (λ _, abstracts_output unpack json_dumps)
                outpath).
  - intros delay n_jobs outpath k pre bad post σ σ' Hpre Hbad.
    destruct (fulltexts_output_Raise unpack universal_extract_paragraphs
                json_dumps (delay (k + length pre)) n_jobs bad) as [e He].
    { apply Exists_exists in Hbad as (row & Hrow & Hraise).
      apply map_raise_fails with row; [done |].
      by apply FulltextTransformer_is_Raise. }
    exists e.
    by apply (for_chunks_Raise
                (λ k, fulltexts_output unpack universal_extract_paragraphs
                        json_dumps (delay k) n_jobs) outpath).
Qed.
Lemma header_count_written rows :
  header_count (Header :: (Data <$> rows)) = 1.
Proof.
  unfold header_count. rewrite filter_cons_True by done. simpl. f_equal.
  induction rows as [|r rows IH]; [done |].
  rewrite fmap_cons, filter_cons_False by done. exact IH.
Qed.

(** C8. A fulltexts run that finds no output file and writes its chunks
    (one or more, so also two or more) puts the header line exactly once:
    after the first [m] writes the file is the header followed by the rows
    of the first [m] chunks, so the first write put the header and every
    later write appended rows only. *)
Theorem header_written_once delay inpath outpath chunksize n_jobs restart
    (σ : fs) :
  σ !! outpath = None →
  0 < chunksize → 0 < n_jobs → inpath ≠ [] →
  Forall (λ row, is_Ok (_extract_then_dump' (Fulltexts.fulltext row)))
    inpath →
  ∃ outs,
    Forall2 (λ chunk output, length output = length chunk)
      (chunks_of chunksize inpath) outs ∧
    (∀ m, 0 < m ≤ length (chunks_of chunksize inpath) →
       for_chunks (fulltexts_body' delay n_jobs outpath) 0
         (take m (chunks_of chunksize inpath)) σ
       = (Ok tt,
          <[outpath := Header :: (Data <$> concat (take m outs))]> σ)) ∧
    process_raw_fulltexts_csv' delay inpath outpath chunksize n_jobs
      restart σ
    = (Ok tt, <[outpath := Header :: (Data <$> concat outs)]> σ) ∧
    header_count (Header :: (Data <$> concat outs)) = 1.
Proof.
  intros Hσ Hcs Hjobs Hne Hall.
  destruct (fulltexts_all_Ok inpath Hall) as [rows Hrows].
  pose proof Hrows as Hconcat.
  rewrite <- (chunks_of_concat chunksize inpath) in Hconcat by done.
  apply map_raise_concat in Hconcat as (outs & Houts & Hrows').
  exists outs. split_and!.
  - eapply Forall2_impl; [done |]. intros chunk o Ho.
    exact (map_raise_length _ _ _ Ho).
  - intros m Hm.
    erewrite (for_chunks_Ok
                (λ k, fulltexts_output unpack universal_extract_paragraphs
                        json_dumps (delay k) n_jobs) outpath);
      [by rewrite Hσ | done | |].
    + apply Forall2_take. eapply Forall2_impl;
        [by apply Forall2_Forall_l; [apply chunks_of_Forall_nonempty |] |].
      intros chunk o [Hchunk Ho] k. by apply fulltexts_output_Ok.
    + destruct m; [lia |].
      by destruct (chunks_of chunksize inpath); [simpl in Hm; lia |].
  - rewrite Hrows'. apply fulltexts_run_fresh; auto.
  - apply header_count_written.
Qed.

(** C9. A fulltexts run with [restart=False] on rows that can all be
    transformed writes, after the header, one row per input row in the
    order of the input, row [i] carrying the ids of input row [i] and the
    content extracted from its own payload; for every chunk size, every
    number of workers and every order in which the workers finish. *)
Theorem fulltexts_order_preserved delay inpath outpath chunksize n_jobs
    (σ : fs) :
  0 < chunksize → 0 < n_jobs → inpath ≠ [] →
  Forall (λ row, is_Ok (_extract_then_dump' (Fulltexts.fulltext row)))
    inpath →
  ∃ rows,
    process_raw_fulltexts_csv' delay inpath outpath chunksize n_jobs
      false σ
    = (Ok tt, <[outpath := Header :: (Data <$> rows)]> σ) ∧
    length rows = length inpath ∧
    ∀ i row, inpath !! i = Some row →
      ∃ bs markup paragraphs,
        bytes_fromhex (Fulltexts.fulltext row) = Ok bs ∧
        unpack bs = Ok markup ∧
        universal_extract_paragraphs markup = Ok paragraphs ∧
        rows !! i = Some (OutRow (Fulltexts.text_ref_id row)
                            (Fulltexts.tc_id1 row) None "fulltext"
                            (json_dumps paragraphs)).
Proof.
  intros Hcs Hjobs Hne Hall.
  destruct (fulltexts_all_Ok inpath Hall) as [rows Hrows].
  exists rows. split.
  - apply fulltexts_run_fresh; auto.
  - by apply fulltexts_rows_shape.
Qed.

(** C10. [process_raw_abstracts_csv] gives [num_processed_rows] a value
    only when the output file exists and [restart] is true.  In the two
    other cases it raises UnboundLocalError before it reads the input:
    without an output file nothing changes, and with [restart=False] the
    output file that existed is gone. *)
Theorem abstracts_skip_counter_unbound inpath outpath chunksize restart
    (σ : fs) :
  process_raw_abstracts_csv' inpath outpath chunksize restart σ
  = match σ !! outpath with
    | Some f =>
        if restart
        then (reader ← lift (read_csv inpath chunksize
                               (range 1 (length f + 1)));
              for_chunks (abstracts_body' outpath) 0 reader) σ
        else (Raise UnboundLocalError, delete outpath σ)
    | None => (Raise UnboundLocalError, σ)
    end.
Proof.
  destruct (σ !! outpath) as [f|] eqn:Hσ.
  - destruct restart; [by apply abstracts_run_restart |].
    unfold process_raw_abstracts_csv.
    unfold mbind, M_bind, mret, M_ret, os_path_exists, os_remove.
    rewrite Hσ. simpl. by rewrite Hσ.
  - unfold process_raw_abstracts_csv.
    unfold mbind, M_bind, mret, M_ret, os_path_exists.
    by rewrite Hσ.
Qed.
End runs.

(** ** The pipelines at work *)

Example bytes_fromhex_spaces :
  bytes_fromhex (Text "41 4a") = Ok ["A"%byte; "J"%byte]
  ∧ bytes_fromhex (Text "4 1") = Raise ValueError
  ∧ bytes_fromhex (Text "zz") = Raise ValueError
  ∧ bytes_fromhex Number = Raise TypeError.
Proof. by vm_compute. Qed.

Example Pool_map_last_first :
  Pool_map (λ i, 100 - i) 2 (λ x, Ok (x + 1)) (seq 0 20) = Ok (seq 1 20).
Proof. by vm_compute. Qed.

Example Pool_map_first_report_wins :
  let f x := if x =? 3 then Raise ValueError
             else if x =? 7 then Raise DecompressError else Ok x in
  Pool_map (λ i, i) 1 f (seq 1 9) = Raise ValueError
  ∧ Pool_map (λ i, 100 - i) 1 f (seq 1 9) = Raise DecompressError.
Proof. by vm_compute. Qed.

(** How many rows a restart leaves out of the input: as many as the output
    file has lines, the header line counted, as far as the input reaches. *)
Lemma restart_skipped_rows {R} (table : list R) n :
  table ≠ [] →
  length table - length (skip_lines 0 (range 1 (n + 1)) table)
  = n `min` (length table - 1).
Proof.
  intros Hne. rewrite skip_lines_range, length_app, length_take, length_drop.
  destruct table; simpl in *; [done | lia].
Qed.

(** C1, at a failing input: five fulltext rows read two at a time, the run
    interrupted after its first chunk and then called again with
    [restart=True].  The output file holds three lines, so lines 1 to 3 of
    the input are skipped: row 0 is written a second time and rows 2 and 3
    are never written. *)
Theorem resume_duplicates_and_skips :
  let interrupted : fs :=
    (for_chunks
       (fulltexts_body Doubles.unpack Doubles.universal_extract_paragraphs
          Doubles.json_dumps Doubles.together 1 "out.csv")
       0 (take 1 (chunks_of 2 Doubles.five_rows)) ∅).2 in
  interrupted
  = {[ "out.csv" := Header :: (Data <$> [Doubles.fulltext_out 0 ["A"];
                                          Doubles.fulltext_out 1 ["B"]]) ]}
  ∧ Doubles.process_raw_fulltexts_csv Doubles.together Doubles.five_rows
      "out.csv" 2 1 true interrupted
    = (Ok tt,
       {[ "out.csv" := Header :: (Data <$> [Doubles.fulltext_out 0 ["A"];
                                             Doubles.fulltext_out 1 ["B"];
                                             Doubles.fulltext_out 0 ["A"];
                                             Doubles.fulltext_out 4 ["E"]]) ]}).
Proof. by vm_compute. Qed.

(** C2, at a failing input: a one-row fulltexts table processed to the end,
    then processed again with [restart=True].  Line 0 of the input is never
    in [skiprows], so the second run appends the row once more. *)
Theorem restart_on_complete_output_appends :
  let inpath := [Doubles.fulltext_in 0 "1f8b41"] in
  let complete : fs :=
    (Doubles.process_raw_fulltexts_csv Doubles.together inpath
       "out.csv" 1000 1 false ∅).2 in
  complete = {[ "out.csv" := [Header; Data (Doubles.fulltext_out 0 ["A"])] ]}
  ∧ Doubles.process_raw_fulltexts_csv Doubles.together inpath
      "out.csv" 1000 1 true complete
    = (Ok tt,
       {[ "out.csv" := [Header; Data (Doubles.fulltext_out 0 ["A"]);
                        Data (Doubles.fulltext_out 0 ["A"])] ]}).
Proof. by vm_compute. Qed.

(** C3, at a failing input: the output file holds the header and one data
    row, the input four rows.  The line count is 2 and [skiprows] is
    [range(1, 3)]: two input rows are left out, rows 1 and 2, and row 0,
    the one already written, is read again. *)
Theorem restart_skips_line_count_rows :
  let σ : fs := {[ "out.csv" := [Header; Data (Doubles.fulltext_out 0 ["A"])] ]} in
  let inpath := take 4 Doubles.five_rows in
  _get_line_count "out.csv" σ = (Ok 2, σ)
  ∧ read_csv inpath 1 (range 1 (2 + 1))
    = Ok [[Doubles.fulltext_in 0 "1f8b41"]; [Doubles.fulltext_in 3 "1f8b44"]]
  ∧ Doubles.process_raw_fulltexts_csv Doubles.together inpath
      "out.csv" 1 1 true σ
    = (Ok tt,
       {[ "out.csv" := [Header; Data (Doubles.fulltext_out 0 ["A"]);
                        Data (Doubles.fulltext_out 0 ["A"]);
                        Data (Doubles.fulltext_out 3 ["D"])] ]}).
Proof. by vm_compute. Qed.

(** C4, at a failing input: [process_raw_abstracts_csv] with
    [restart=False] on an existing output file removes the file and then
    raises UnboundLocalError; no row of the input is processed. *)
Theorem abstracts_overwrite_raises :
  Doubles.process_raw_abstracts_csv [Doubles.abstract_in] "out.csv" 1000 false
    {[ "out.csv" := [Header; Data (Doubles.fulltext_out 0 ["A"])] ]}
  = (Raise UnboundLocalError, ∅).
Proof. by vm_compute. Qed.

(** C5, at a failing input: the row of the specification's example and no
    output file.  [process_raw_abstracts_csv] raises UnboundLocalError at
    [range(1, num_processed_rows + 1)], with either value of [restart],
    before it reads the row: no output row is emitted and no file is
    written.  The loop is reached only with [restart=True] on an output
    file that exists; on an empty one the row comes out as the claim has
    it. *)
Theorem abstracts_example_row_raises :
  let row_out :=
    OutRow 7 101 (Some 102%Z) "abstract"
      (Doubles.json_dumps ["Title A"; "Abstract A"]) in
  Doubles.process_raw_abstracts_csv [Doubles.abstract_in] "out.csv" 1000
    false ∅
  = (Raise UnboundLocalError, ∅)
  ∧ Doubles.process_raw_abstracts_csv [Doubles.abstract_in] "out.csv" 1000
      true ∅
    = (Raise UnboundLocalError, ∅)
  ∧ Doubles.process_raw_abstracts_csv [Doubles.abstract_in] "out.csv" 1000
      true {[ "out.csv" := [] ]}
    = (Ok tt, {[ "out.csv" := [Data row_out] ]}).
Proof. by vm_compute. Qed.

(** C6, at a failing input: a first row and the row of the specification's
    example, one row per chunk.  A run from scratch emits the row of the
    claim for the example.  A run with [restart=True] on the output of a
    run that was interrupted after its first chunk does not: the line count
    2 makes [skiprows] [range(1, 3)], the example row at line 1 is never
    read, the first row is emitted a second time, and the run returns
    normally. *)
Theorem restart_leaves_row_without_output :
  let example := Fulltexts.Row 9 55 (Text "1f8b50617261317c5061726132") in
  let example_out :=
    OutRow 9 55 None "fulltext" (Doubles.json_dumps ["Para1"; "Para2"]) in
  let first_out := Doubles.fulltext_out 0 ["A"] in
  let inpath := [Doubles.fulltext_in 0 "1f8b41"; example] in
  Doubles.process_raw_fulltexts_csv Doubles.together inpath "out.csv" 1 1
    false ∅
  = (Ok tt, {[ "out.csv" := [Header; Data first_out; Data example_out] ]})
  ∧ Doubles.process_raw_fulltexts_csv Doubles.together inpath "out.csv" 1 1
      true {[ "out.csv" := [Header; Data first_out] ]}
    = (Ok tt, {[ "out.csv" := [Header; Data first_out; Data first_out] ]})
  ∧ Data example_out ∉ [Header; Data first_out; Data first_out].
Proof.
  split_and!; [by vm_compute | by vm_compute |].
  intros Hin. repeat (apply elem_of_cons in Hin as [Hin | Hin]; [done |]).
  by apply elem_of_nil in Hin.
Qed.

(** *** The theorems above on examples *)

Lemma failing_chunk_not_written_witness :
  let good := [Doubles.fulltext_in 0 "1f8b41"] in
  let bad := Doubles.ten_rows_one_corrupt in
  let bad_abstract :=
    [Abstracts.Row 7 101 102 (Text "1f8b5469746c652041") (Text "4 1")] in
  let σ1 : fs := {[ "out.csv" := [Header; Data (Doubles.fulltext_out 0 ["A"])] ]} in
  (for_chunks
     (fulltexts_body Doubles.unpack Doubles.universal_extract_paragraphs
        Doubles.json_dumps Doubles.together 2 "out.csv") 0 [good] ∅
   = (Ok tt, σ1)
   ∧ Exists (λ row,
               is_Raise (_extract_then_dump Doubles.unpack
                           Doubles.universal_extract_paragraphs
                           Doubles.json_dumps (Fulltexts.fulltext row))) bad
   ∧ Exists (λ row,
               is_Raise (unpack_fromhex Doubles.unpack (Abstracts.title row)) ∨
               is_Raise (unpack_fromhex Doubles.unpack
                           (Abstracts.abstract row))) bad_abstract)
  ∧ (∃ e, for_chunks
            (fulltexts_body Doubles.unpack Doubles.universal_extract_paragraphs
               Doubles.json_dumps Doubles.together 2 "out.csv") 0
            ([good] ++ bad :: []) ∅
          = (Raise e, σ1))
  ∧ (∃ e, for_chunks
            (abstracts_body Doubles.unpack Doubles.json_dumps "out.csv") 0
            ([] ++ bad_abstract :: []) σ1
          = (Raise e, σ1)).
Proof.
  intros good bad bad_abstract σ1.
  assert (for_chunks
            (fulltexts_body Doubles.unpack Doubles.universal_extract_paragraphs
               Doubles.json_dumps Doubles.together 2 "out.csv") 0 [good] ∅
          = (Ok tt, σ1)) as Hpre by (vm_compute; reflexivity).
  assert (Exists (λ row,
               is_Raise (_extract_then_dump Doubles.unpack
                           Doubles.universal_extract_paragraphs
                           Doubles.json_dumps (Fulltexts.fulltext row))) bad)
    as Hbad.
  { apply Exists_exists. exists (Doubles.fulltext_in 5 "zz"). split.
    - apply list_elem_of_lookup. exists 5. reflexivity.
    - eexists. vm_compute. reflexivity. }
  assert (Exists (λ row,
               is_Raise (unpack_fromhex Doubles.unpack (Abstracts.title row)) ∨
               is_Raise (unpack_fromhex Doubles.unpack
                           (Abstracts.abstract row))) bad_abstract)
    as Hbad_abstract.
  { constructor. right. eexists. vm_compute. reflexivity. }
  destruct (failing_chunk_not_written Doubles.unpack
              Doubles.universal_extract_paragraphs Doubles.json_dumps)
    as [Habstracts Hfulltexts].
  split; [by split_and! |]. split.
  - exact (Hfulltexts Doubles.together 2 "out.csv" 0 [good] bad [] ∅ σ1
             Hpre Hbad).
  - exact (Habstracts "out.csv" 0 [] bad_abstract [] σ1 σ1 eq_refl
             Hbad_abstract).
Defined.

Lemma header_written_once_witness :
  (((∅ : fs) !! "out.csv" = None ∧ 0 < 2 ∧ 0 < 2 ∧ Doubles.five_rows ≠ [])
   ∧ Forall (λ row,
               is_Ok (_extract_then_dump Doubles.unpack
                        Doubles.universal_extract_paragraphs
                        Doubles.json_dumps (Fulltexts.fulltext row)))
       Doubles.five_rows)
  ∧ ∃ outs,
      length outs = 3
      ∧ Doubles.process_raw_fulltexts_csv Doubles.last_first Doubles.five_rows
          "out.csv" 2 2 false ∅
        = (Ok tt, {[ "out.csv" := Header :: (Data <$> concat outs) ]})
      ∧ header_count (Header :: (Data <$> concat outs)) = 1.
Proof.
  assert (Forall (λ row,
               is_Ok (_extract_then_dump Doubles.unpack
                        Doubles.universal_extract_paragraphs
                        Doubles.json_dumps (Fulltexts.fulltext row)))
            Doubles.five_rows) as Hall.
  { repeat (constructor; [eexists; vm_compute; reflexivity |]). constructor. }
  assert ((∅ : fs) !! "out.csv" = None) as Hσ by reflexivity.
  split; [split; [split_and!; (done || lia) | exact Hall] |].
  destruct (header_written_once Doubles.unpack
              Doubles.universal_extract_paragraphs Doubles.json_dumps
              Doubles.last_first Doubles.five_rows "out.csv" 2 2 false ∅
              Hσ ltac:(lia) ltac:(lia) ltac:(done) Hall)
    as (outs & Hlen & _ & Hrun & Hcount).
  exists outs. split_and!; [| exact Hrun | exact Hcount].
  apply Forall2_length in Hlen. by rewrite <- Hlen.
Defined.

Lemma fulltexts_order_preserved_witness :
  ((0 < 5 ∧ 0 < 2 ∧ Doubles.five_rows ≠ [])
   ∧ Forall (λ row,
               is_Ok (_extract_then_dump Doubles.unpack
                        Doubles.universal_extract_paragraphs
                        Doubles.json_dumps (Fulltexts.fulltext row)))
       Doubles.five_rows)
  ∧ ∃ rows,
      Doubles.process_raw_fulltexts_csv Doubles.last_first Doubles.five_rows
        "out.csv" 5 2 false
        {[ "out.csv" := [Foreign "left by an earlier run"] ]}
      = (Ok tt, {[ "out.csv" := Header :: (Data <$> rows) ]})
      ∧ length rows = 5
      ∧ rows !! 4 = Some (Doubles.fulltext_out 4 ["E"]).
Proof.
  assert (Forall (λ row,
               is_Ok (_extract_then_dump Doubles.unpack
                        Doubles.universal_extract_paragraphs
                        Doubles.json_dumps (Fulltexts.fulltext row)))
            Doubles.five_rows) as Hall.
  { repeat (constructor; [eexists; vm_compute; reflexivity |]). constructor. }
  split; [split; [split_and!; (done || lia) | exact Hall] |].
  destruct (fulltexts_order_preserved Doubles.unpack
              Doubles.universal_extract_paragraphs Doubles.json_dumps
              Doubles.last_first Doubles.five_rows "out.csv" 5 2
              {[ "out.csv" := [Foreign "left by an earlier run"] ]}
              ltac:(lia) ltac:(lia) ltac:(done) Hall)
    as (rows & Hrun & Hlen & Hshape).
  exists rows. split_and!; [| exact Hlen |].
  - unfold Doubles.process_raw_fulltexts_csv. rewrite Hrun. by f_equal.
  - destruct (Hshape 4 _ eq_refl) as (bs & markup & ps & Hbs & Hm & Hps & Ho).
    vm_compute in Hbs. injection Hbs as <-.
    vm_compute in Hm. injection Hm as <-.
    vm_compute in Hps. injection Hps as <-. exact Ho.
Defined.

(** * Further properties of the code *)

(** ** Pool.map and the chunked reader *)

(** X3. [Pool.map] with at least one process either returns what
    [list(map(func, iterable))] returns, or raises an exception that [func]
    raises on an item of the iterable; in whatever order the batches
    report. *)
Theorem Pool_map_result {A B} (delay : nat → nat) (processes : nat)
    (func : A → result B) (iterable : list A) :
  0 < processes →
  match Pool_map delay processes func iterable with
  | Ok l' => map_raise func iterable = Ok l'
  | Raise e => ∃ x, x ∈ iterable ∧ func x = Raise e
  end.
Proof.
  intros Hp. destruct (map_raise func iterable) as [l'|e] eqn:Hm.
  - by erewrite Pool_map_Ok.
  - destruct (Pool_map_Raise func iterable processes delay Hp)
      as (x & e' & Hx & He' & ->); [by eexists |].
    by exists x.
Qed.

(** X4. When [chunksize] is at least 1 and some line is kept, the reader
    hands the kept lines to the loop in order and in chunks that are never
    empty and never longer than [chunksize]; every chunk but the last has
    exactly [chunksize] rows. *)
Theorem read_csv_chunks {R} (table : list R) (chunksize : nat)
    (skiprows : list nat) :
  0 < chunksize → skip_lines 0 skiprows table ≠ [] →
  ∃ reader,
    read_csv table chunksize skiprows = Ok reader ∧
    concat reader = skip_lines 0 skiprows table ∧
    Forall (λ chunk, 0 < length chunk ≤ chunksize) reader ∧
    ∀ i chunk, reader !! i = Some chunk → S i < length reader →
               length chunk = chunksize.
Proof.
  intros Hcs Hkept. unfold read_csv.
  destruct (Nat.eqb_spec chunksize 0) as [|_]; [lia |].
  destruct (skip_lines 0 skiprows table) as [|r kept]; [done |].
  set (l := r :: kept). exists (chunks_of chunksize l). split_and!.
  - done.
  - by apply chunks_of_concat.
  - apply Forall_lookup. intros i chunk Hi.
    rewrite chunks_of_lookup in Hi by done.
    destruct (decide _); [|done]. injection Hi as <-.
    rewrite length_take, length_drop. lia.
  - intros i chunk Hi Hlt.
    apply lookup_lt_is_Some in Hlt as [next Hnext].
    rewrite chunks_of_lookup in Hi, Hnext by done.
    destruct (decide (S i * chunksize < length l)); [|done].
    destruct (decide (i * chunksize < length l)); [|done].
    injection Hi as <-. rewrite length_take, length_drop. lia.
Qed.

Lemma concat_take_islices {A} m fuel size (it : list A) :
  0 < size → length it ≤ fuel →
  concat (take m (islices fuel size it)) = take (m * size) it.
Proof.
  intros Hsize. revert fuel it.
  induction m as [|m IH]; intros fuel it Hfuel; [done |].
  destruct fuel as [|fuel]; simpl.
  { destruct it; simpl in *; [by rewrite take_nil | lia]. }
  destruct (take size it) as [|a x] eqn:Htake.
  - apply take_nil_inv in Htake as ->; [|done]. by rewrite !take_nil.
  - rewrite <- Htake. simpl. rewrite IH.
    + apply take_take_drop.
    + rewrite length_drop.
      destruct it; simpl in *; [by rewrite take_nil in Htake | lia].
Qed.

Lemma concat_take_chunks_of {A} m size (it : list A) :
  0 < size → concat (take m (chunks_of size it)) = take (m * size) it.
Proof. intros. by apply concat_take_islices. Qed.

Lemma map_raise_concat_Ok {A B} (f : A → result B) ls outs :
  Forall2 (λ l o, map_raise f l = Ok o) ls outs →
  map_raise f (concat ls) = Ok (concat outs).
Proof.
  induction 1 as [|l o ls outs Hl _ IH]; [done |].
  simpl. apply map_raise_Ok, Forall2_app; by apply map_raise_Ok.
Qed.

Lemma chunks_of_0 {A} (it : list A) : chunks_of 0 it = [].
Proof. unfold chunks_of. by destruct (length it). Qed.

Lemma map_raise_take_chunks {A B} (f : A → result B) m size it outs :
  m ≤ length (chunks_of size it) →
  Forall2 (λ l o, map_raise f l = Ok o) (take m (chunks_of size it)) outs →
  map_raise f (take (m * size) it) = Ok (concat outs).
Proof.
  intros Hm Houts. destruct size as [|size].
  - rewrite chunks_of_0 in Hm, Houts. simpl in Hm.
    assert (m = 0) as -> by lia. by apply Forall2_nil_inv_l in Houts as ->.
  - rewrite <- concat_take_chunks_of by lia. by apply map_raise_concat_Ok.
Qed.

(** ** Every outcome of the loop *)

Section loop_outcome.
Context {R : Type} (g : nat → list R → result (list out_row)).
Context (outpath : string) (body : nat → list R → M unit).
Context (T : list R → list out_row → Prop).
Hypothesis body_eq : ∀ k chunk σ,
  body k chunk σ = (output ← lift (g k chunk); append_output outpath output) σ.
Hypothesis g_Ok : ∀ k chunk output, g k chunk = Ok output → T chunk output.
Hypothesis g_nil : ∀ k, is_Raise (g k []).

(** The loop writes the outputs of the first [m] chunks, for some [m], and
    nothing else; it returns normally only when [m] is all of them. *)
Lemma for_chunks_outcome k chunks (σ : fs) :
  ∃ m outs,
    m ≤ length chunks ∧
    Forall2 T (take m chunks) outs ∧
    (for_chunks body k chunks σ).2
    = match m with
      | 0 => σ
      | S _ => <[outpath := written (σ !! outpath) (concat outs)]> σ
      end ∧
    ((for_chunks body k chunks σ).1 = Ok tt → m = length chunks).
Proof.
  revert k σ. induction chunks as [|chunk chunks IH]; intros k σ.
  { exists 0, []. by split_and!. }
  simpl. unfold mbind, M_bind. rewrite body_eq.
  unfold mbind, M_bind, lift. destruct (g k chunk) as [o|e] eqn:Hg.
  2: { exists 0, []. split_and!; [lia | done..]. }
  rewrite append_output_run.
  destruct (IH (S k) (<[outpath := written (σ !! outpath) o]> σ))
    as (m & outs & Hm & Houts & Hsnd & Hfst).
  exists (S m), (o :: outs). split_and!.
  - lia.
  - simpl. constructor; [by eapply g_Ok | done].
  - rewrite Hsnd. destruct m as [|m].
    + apply Forall2_nil_inv_l in Houts as ->. simpl. by rewrite app_nil_r.
    + rewrite lookup_insert_eq, insert_insert_eq. by rewrite written_written.
  - intros Hok. simpl. f_equal. by apply Hfst.
Qed.

(** Reading with the restart skip [n] and looping, from any file system. *)
Lemma read_loop_outcome (table : list R) chunksize n (τ : fs)
    (run := (reader ← lift (read_csv table chunksize (range 1 (n + 1)));
             for_chunks body 0 reader) τ)
    (kept := take 1 table ++ drop (S n) table) :
  ∃ m outs,
    m ≤ length (chunks_of chunksize kept) ∧
    Forall2 T (take m (chunks_of chunksize kept)) outs ∧
    run.2 = match m with
            | 0 => τ
            | S _ => <[outpath := written (τ !! outpath) (concat outs)]> τ
            end ∧
    (run.1 = Ok tt → m = length (chunks_of chunksize kept)).
Proof.
  subst run kept. unfold mbind at 1, M_bind at 1, lift, read_csv.
  rewrite skip_lines_range.
  destruct (chunksize =? 0); [exists 0, []; split_and!; (done || lia) |].
  destruct (take 1 table ++ drop (S n) table) as [|r kept] eqn:Hkept.
  2: apply for_chunks_outcome.
  destruct (g_nil 0) as [e He]. exists 0, []. simpl.
  unfold mbind, M_bind. rewrite body_eq. unfold mbind, M_bind, lift.
  rewrite He. simpl. by split_and!.
Qed.
End loop_outcome.

Section read_loop_rows.
Context {R : Type} (f : R → result out_row).
Context (g : nat → list R → result (list out_row)).
Context (outpath : string) (body : nat → list R → M unit).
Hypothesis body_eq : ∀ k chunk σ,
  body k chunk σ = (output ← lift (g k chunk); append_output outpath output) σ.
Hypothesis g_Ok : ∀ k chunk output,
  g k chunk = Ok output → map_raise f chunk = Ok output.
Hypothesis g_nil : ∀ k, is_Raise (g k []).

(** Whatever the outcome, what was written are the rows of the first [m]
    chunks of the lines kept, each transformed by [f]. *)
Lemma read_loop_rows (table : list R) chunksize n (τ : fs)
    (run := (reader ← lift (read_csv table chunksize (range 1 (n + 1)));
             for_chunks body 0 reader) τ)
    (kept := take 1 table ++ drop (S n) table) :
  ∃ m rows,
    map_raise f (take (m * chunksize) kept) = Ok rows ∧
    run.2 = match m with
            | 0 => τ
            | S _ => <[outpath := written (τ !! outpath) rows]> τ
            end ∧
    (run.1 = Ok tt → take (m * chunksize) kept = kept).
Proof.
  destruct chunksize as [|chunksize].
  { exists 0, []. by split_and!. }
  destruct (read_loop_outcome g outpath body
              (λ chunk output, map_raise f chunk = Ok output)
              body_eq g_Ok g_nil table (S chunksize) n τ)
    as (m & outs & Hm & Houts & Hsnd & Hfst).
  exists m, (concat outs). split_and!.
  - by apply map_raise_take_chunks.
  - exact Hsnd.
  - intros ->%Hfst. rewrite <- concat_take_chunks_of by lia.
    rewrite take_ge by done. apply chunks_of_concat. lia.
Qed.

Lemma read_loop_frame (table : list R) chunksize n (τ : fs) :
  delete outpath
    ((reader ← lift (read_csv table chunksize (range 1 (n + 1)));
      for_chunks body 0 reader) τ).2
  = delete outpath τ.
Proof.
  destruct (read_loop_rows table chunksize n τ) as (m & rows & _ & -> & _).
  destruct m; [done | apply delete_insert_eq].
Qed.
End read_loop_rows.

(** ** Every outcome of the pipelines *)

Section outcomes.
Context (unpack : list byte → result string).
Context (universal_extract_paragraphs : string → result (list string)).
Context (json_dumps : list string → string).

#[local] Abbreviation unpack_fromhex' := (unpack_fromhex unpack).
#[local] Abbreviation _extract_then_dump' :=
  (_extract_then_dump unpack universal_extract_paragraphs json_dumps).
#[local] Abbreviation AbstractTransformer' :=
  (AbstractTransformer unpack json_dumps).
#[local] Abbreviation FulltextTransformer' :=
  (FulltextTransformer unpack universal_extract_paragraphs json_dumps).
#[local] Abbreviation abstracts_output' :=
  (abstracts_output unpack json_dumps).
#[local] Abbreviation fulltexts_output' :=
  (fulltexts_output unpack universal_extract_paragraphs json_dumps).
#[local] Abbreviation abstracts_body' :=
  (abstracts_body unpack json_dumps).
#[local] Abbreviation fulltexts_body' :=
  (fulltexts_body unpack universal_extract_paragraphs json_dumps).
#[local] Abbreviation fulltexts_read_loop delay inpath outpath chunksize
    n_jobs n :=
  (reader ← lift (read_csv inpath chunksize (range 1 (n + 1)));
   for_chunks (fulltexts_body' delay n_jobs outpath) 0 reader).
#[local] Abbreviation abstracts_read_loop inpath outpath chunksize n :=
  (reader ← lift (read_csv inpath chunksize (range 1 (n + 1)));
   for_chunks (abstracts_body' outpath) 0 reader).

Lemma fulltexts_output_Ok_inv delay n_jobs chunk rows :
  fulltexts_output' delay n_jobs chunk = Ok rows →
  map_raise FulltextTransformer' chunk = Ok rows.
Proof.
  intros Hout.
  destruct (decide (chunk = [])) as [-> | Hne].
  { by rewrite fulltexts_output_nil in Hout. }
  destruct (map_raise FulltextTransformer' chunk) as [rows'|e] eqn:Hrows.
  - destruct n_jobs as [|n]; [done |].
    erewrite fulltexts_output_Ok in Hout; [done | lia | done | done].
  - destruct (fulltexts_output_Raise unpack universal_extract_paragraphs
                json_dumps delay n_jobs chunk) as [e' He']; [by eexists |].
    congruence.
Qed.

Lemma abstracts_output_Ok_inv chunk rows :
  abstracts_output' chunk = Ok rows →
  map_raise AbstractTransformer' chunk = Ok rows.
Proof.
  intros Hout.
  destruct (decide (chunk = [])) as [-> | Hne]; [done |].
  pose proof (abstracts_output_rows unpack json_dumps chunk Hne) as H.
  rewrite Hout in H. destruct (map_raise _ chunk); [by subst | done].
Qed.

Lemma fulltexts_run_fresh_any delay inpath outpath chunksize n_jobs restart
    (σ : fs) :
  σ !! outpath = None ∨ restart = false →
  process_raw_fulltexts_csv unpack universal_extract_paragraphs json_dumps
    delay inpath outpath chunksize n_jobs restart σ
  = fulltexts_read_loop delay inpath outpath chunksize n_jobs 0
      (delete outpath σ).
Proof.
  intros Hfresh. destruct (σ !! outpath) as [f|] eqn:Hσ.
  - destruct Hfresh as [? | ->]; [done |].
    by erewrite fulltexts_run_overwrite.
  - rewrite fulltexts_run_absent by done. by rewrite delete_id.
Qed.

Lemma abstracts_run_unbound inpath outpath chunksize restart (σ : fs) :
  σ !! outpath = None ∨ restart = false →
  process_raw_abstracts_csv unpack json_dumps inpath outpath chunksize restart σ
  = (Raise UnboundLocalError, delete outpath σ).
Proof.
  intros Hfresh. unfold process_raw_abstracts_csv.
  unfold mbind, M_bind, mret, M_ret, os_path_exists, os_remove.
  destruct (σ !! outpath) as [f|] eqn:Hσ; simpl.
  - destruct Hfresh as [? | ->]; [done |]. by rewrite Hσ.
  - by rewrite delete_id.
Qed.

Lemma fulltexts_read_loop_rows delay inpath outpath chunksize n_jobs n
    (τ : fs)
    (run := fulltexts_read_loop delay inpath outpath chunksize n_jobs n τ)
    (kept := take 1 inpath ++ drop (S n) inpath) :
  ∃ m rows,
    map_raise FulltextTransformer' (take (m * chunksize) kept) = Ok rows ∧
    run.2 = match m with
            | 0 => τ
            | S _ => <[outpath := written (τ !! outpath) rows]> τ
            end ∧
    (run.1 = Ok tt → take (m * chunksize) kept = kept).
Proof.
  apply (read_loop_rows FulltextTransformer'
           (λ k, fulltexts_output' (delay k) n_jobs)); [done | |].
  - intros k chunk output. apply fulltexts_output_Ok_inv.
  - intros k. eexists. apply fulltexts_output_nil.
Qed.


Lemma kept_all {R} (inpath : list R) : take 1 inpath ++ drop 1 inpath = inpath.
Proof. apply take_drop. Qed.

(** X5. With [n_jobs=0] the fulltexts pipeline raises ValueError at its
    first chunk and writes nothing; called with [restart=False] it has
    removed the output file by then. *)
Theorem fulltexts_without_workers delay inpath outpath chunksize restart
    (σ : fs) :
  0 < chunksize → inpath ≠ [] →
  process_raw_fulltexts_csv unpack universal_extract_paragraphs json_dumps
    delay inpath outpath chunksize 0 restart σ
  = (Raise ValueError, if restart then σ else delete outpath σ).
Proof.
  intros Hcs Hne.
  assert (∀ n (τ : fs),
            fulltexts_read_loop delay inpath outpath chunksize 0 n τ
            = (Raise ValueError, τ)) as Hloop.
  { intros n τ. unfold mbind at 1, M_bind at 1, lift.
    rewrite read_csv_range by done.
    destruct (chunks_of chunksize (take 1 inpath ++ drop (S n) inpath))
      as [|chunk rest] eqn:Hchunks; [|done].
    apply chunks_of_nonempty in Hchunks; [done | done | by destruct inpath]. }
  destruct (σ !! outpath) as [f|] eqn:Hσ.
  - destruct restart.
    + erewrite fulltexts_run_restart by done. apply Hloop.
    + erewrite fulltexts_run_overwrite by done. apply Hloop.
  - rewrite fulltexts_run_absent by done. rewrite Hloop.
    destruct restart; [done | by rewrite delete_id].
Qed.

(** X6. With [chunksize=0] the fulltexts pipeline raises ValueError when
    it opens the reader and writes nothing; called with [restart=False] it
    has removed the output file by then. *)
Theorem fulltexts_chunksize_zero delay inpath outpath n_jobs restart
    (σ : fs) :
  process_raw_fulltexts_csv unpack universal_extract_paragraphs json_dumps
    delay inpath outpath 0 n_jobs restart σ
  = (Raise ValueError, if restart then σ else delete outpath σ).
Proof.
  destruct (σ !! outpath) as [f|] eqn:Hσ.
  - destruct restart.
    + by erewrite fulltexts_run_restart.
    + by erewrite fulltexts_run_overwrite.
  - rewrite fulltexts_run_absent by done.
    destruct restart; [done | by rewrite delete_id].
Qed.

Lemma fulltexts_run_frame delay inpath outpath chunksize n_jobs restart
    (σ : fs) :
  delete outpath
    (process_raw_fulltexts_csv unpack universal_extract_paragraphs json_dumps
       delay inpath outpath chunksize n_jobs
       restart σ).2
  = delete outpath σ.
Proof.
  assert (∀ n (τ : fs),
            delete outpath
              (fulltexts_read_loop delay inpath outpath chunksize n_jobs n τ).2
            = delete outpath τ) as Hloop.
  { intros n τ.
    apply (read_loop_frame FulltextTransformer'
             (λ k, fulltexts_output' (delay k) n_jobs)); [done | |].
    - intros k chunk output. apply fulltexts_output_Ok_inv.
    - intros k. eexists. apply fulltexts_output_nil. }
  destruct (σ !! outpath) as [f|] eqn:Hσ.
  - destruct restart.
    + erewrite fulltexts_run_restart by done. apply Hloop.
    + erewrite fulltexts_run_overwrite by done.
      by rewrite Hloop, delete_delete_eq.
  - rewrite fulltexts_run_absent by done. apply Hloop.
Qed.

Lemma abstracts_run_frame inpath outpath chunksize restart (σ : fs) :
  delete outpath
    (process_raw_abstracts_csv unpack json_dumps
       inpath outpath chunksize restart σ).2
  = delete outpath σ.
Proof.
  destruct (σ !! outpath) as [f|] eqn:Hσ; [destruct restart |].
  - erewrite abstracts_run_restart by done.
    apply (read_loop_frame AbstractTransformer' (λ _, abstracts_output'));
      [done | |].
    + intros _ chunk output. apply abstracts_output_Ok_inv.
    + intros _. eexists. apply abstracts_output_nil.
  - rewrite abstracts_run_unbound by auto. apply delete_delete_eq.
  - rewrite abstracts_run_unbound by auto. apply delete_delete_eq.
Qed.

(** X7. Neither pipeline creates, changes or removes a file other than
    the one at [outpath], whatever the arguments and the outcome. *)
Theorem other_files_untouched delay (fulltexts_in : list Fulltexts.row)
    (abstracts_in : list Abstracts.row) outpath chunksize n_jobs restart
    (σ : fs) (path : string) :
  path ≠ outpath →
  (process_raw_fulltexts_csv unpack universal_extract_paragraphs json_dumps
     delay fulltexts_in outpath chunksize n_jobs
     restart σ).2 !! path = σ !! path
  ∧ (process_raw_abstracts_csv unpack json_dumps
       abstracts_in outpath chunksize restart σ).2
      !! path = σ !! path.
Proof.
  intros Hpath. split.
  - rewrite <- (lookup_delete_ne _ outpath path) by done.
    rewrite fulltexts_run_frame. by apply lookup_delete_ne.
  - rewrite <- (lookup_delete_ne _ outpath path) by done.
    rewrite abstracts_run_frame. by apply lookup_delete_ne.
Qed.

Lemma fulltexts_fresh_rows delay inpath outpath chunksize n_jobs
    restart (σ : fs)
    (run := process_raw_fulltexts_csv unpack universal_extract_paragraphs json_dumps
          delay inpath outpath chunksize n_jobs
              restart σ) :
  σ !! outpath = None ∨ restart = false →
  ∃ m rows,
    map_raise FulltextTransformer' (take (m * chunksize) inpath) = Ok rows ∧
    run.2 = match m with
            | 0 => delete outpath σ
            | S _ => <[outpath := Header :: (Data <$> rows)]> σ
            end ∧
    (run.1 = Ok tt → take (m * chunksize) inpath = inpath).
Proof.
  intros Hfresh. subst run. rewrite fulltexts_run_fresh_any by done.
  destruct (fulltexts_read_loop_rows delay inpath outpath chunksize n_jobs 0
              (delete outpath σ)) as (m & rows & Hrows & Hsnd & Hfst).
  rewrite kept_all in Hrows, Hfst.
  exists m, rows. split_and!; [done | | done].
  rewrite Hsnd. destruct m; [done |].
  by rewrite lookup_delete_eq, insert_delete_eq.
Qed.

(** X8. However a fulltexts run that starts from scratch ends (no output
    file before it, or [restart=False]), the output file is then either
    missing or holds the header followed by the transformed rows of the
    first [m] whole chunks of the input, in input order; if the run returned
    normally these are all the rows. *)
Theorem fulltexts_output_is_prefix delay inpath outpath chunksize n_jobs
    restart (σ : fs)
    (run := process_raw_fulltexts_csv unpack universal_extract_paragraphs json_dumps
          delay inpath outpath chunksize n_jobs
              restart σ) :
  σ !! outpath = None ∨ restart = false →
  ∃ m rows,
    map_raise FulltextTransformer' (take (m * chunksize) inpath) = Ok rows ∧
    run.2 = match m with
            | 0 => delete outpath σ
            | S _ => <[outpath := Header :: (Data <$> rows)]> σ
            end ∧
    (run.1 = Ok tt → take (m * chunksize) inpath = inpath).
Proof. apply fulltexts_fresh_rows. Qed.



Lemma header_count_data rows : header_count (Data <$> rows) = 0.
Proof.
  unfold header_count. induction rows as [|r rows IH]; [done |].
  rewrite fmap_cons, filter_cons_False by done. exact IH.
Qed.

(** X11. Called with [restart=True] on an output file that exists and is
    empty, the abstracts pipeline transforms the whole table: the file then
    holds one data line per input row, in input order, and no header
    line. *)
Theorem abstracts_restart_on_empty_file inpath outpath chunksize (σ : fs) :
  σ !! outpath = Some [] →
  0 < chunksize → inpath ≠ [] →
  Forall (λ row, is_Ok (unpack_fromhex' (Abstracts.title row)) ∧
                 is_Ok (unpack_fromhex' (Abstracts.abstract row))) inpath →
  ∃ rows,
    process_raw_abstracts_csv unpack json_dumps inpath outpath chunksize true σ
    = (Ok tt, <[outpath := Data <$> rows]> σ) ∧
    header_count (Data <$> rows) = 0 ∧
    length rows = length inpath ∧
    ∀ i row, inpath !! i = Some row →
      ∃ t a,
        unpack_fromhex' (Abstracts.title row) = Ok t ∧
        unpack_fromhex' (Abstracts.abstract row) = Ok a ∧
        rows !! i = Some (OutRow (Abstracts.text_ref_id row)
                            (Abstracts.tc_id1 row)
                            (Some (Abstracts.tc_id2 row)) "abstract"
                            (json_dumps [t; a])).
Proof.
  intros Hσ Hcs Hne Hall.
  destruct (map_raise_total AbstractTransformer' inpath) as [rows Hrows].
  { intros row Hrow. eapply Forall_forall in Hall as [? ?]; [|done].
    by apply AbstractTransformer_is_Ok. }
  exists rows. split_and!.
  - rewrite abstracts_run_resumed with (f := []) (rows := rows);
      [done | done | done | done |].
    simpl. by rewrite kept_all.
  - apply header_count_data.
  - by eapply map_raise_length.
  - intros i row Hi. apply map_raise_Ok in Hrows.
    destruct (Forall2_lookup_l _ _ _ _ _ Hrows Hi) as (o & Ho & Hrow).
    apply AbstractTransformer_Ok in Hrow as (t & a & ? & ? & ->).
    by exists t, a.
Qed.

Lemma fulltexts_output_schedule delay delay' n_jobs chunk rows :
  fulltexts_output' delay n_jobs chunk = Ok rows →
  fulltexts_output' delay' n_jobs chunk = Ok rows.
Proof.
  intros Hout.
  destruct (decide (chunk = [])) as [-> | Hne].
  { by rewrite fulltexts_output_nil in Hout. }
  destruct n_jobs as [|n]; [done |].
  apply fulltexts_output_Ok; [lia | done |].
  by eapply fulltexts_output_Ok_inv.
Qed.

(** The order in which the workers finish changes neither what the loop
    writes nor whether it returns normally. *)
Lemma fulltexts_loop_schedule delay delay' n_jobs outpath k chunks (σ : fs)
    (run := for_chunks (fulltexts_body' delay n_jobs outpath) k chunks σ)
    (run' := for_chunks (fulltexts_body' delay' n_jobs outpath) k chunks σ) :
  run'.2 = run.2 ∧ (run'.1 = Ok tt ↔ run.1 = Ok tt).
Proof.
  subst run run'. revert k σ.
  induction chunks as [|chunk chunks IH]; intros k σ; [done |].
  simpl. unfold mbind, M_bind, fulltexts_body.
  unfold mbind, M_bind, lift.
  destruct (fulltexts_output' (delay k) n_jobs chunk) as [o|e] eqn:Hout.
  - rewrite (fulltexts_output_schedule _ (delay' k) _ _ _ Hout).
    rewrite !append_output_run. apply IH.
  - destruct (fulltexts_output' (delay' k) n_jobs chunk) as [o'|e'] eqn:Hout';
      [|done].
    apply (fulltexts_output_schedule _ (delay k)) in Hout'. congruence.
Qed.

(** X12. Running the fulltexts pipeline with [restart=False] a second
    time, on the file system the first run left, leaves the files the first
    run left, and returns normally exactly when the first run did, in
    whatever order the workers finish in either run: the first output is
    removed and written anew.  (When both runs raise, the exceptions can
    differ.) *)
Theorem fulltexts_overwrite_idempotent delay delay' inpath outpath chunksize
    n_jobs (σ : fs)
    (first := process_raw_fulltexts_csv unpack universal_extract_paragraphs
                json_dumps delay inpath outpath chunksize n_jobs false σ)
    (second := process_raw_fulltexts_csv unpack universal_extract_paragraphs
                 json_dumps delay' inpath outpath chunksize n_jobs false
                 first.2) :
  second.2 = first.2 ∧ (second.1 = Ok tt ↔ first.1 = Ok tt).
Proof.
  subst second.
  rewrite (fulltexts_run_fresh_any _ _ _ _ _ false (first.2)) by auto.
  subst first. rewrite fulltexts_run_frame.
  rewrite (fulltexts_run_fresh_any _ _ _ _ _ false σ) by auto.
  unfold mbind, M_bind, lift.
  destruct (read_csv inpath chunksize (range 1 (0 + 1))) as [reader|e];
    [|done].
  apply fulltexts_loop_schedule.
Qed.

(** X13. After a fulltexts run on a table with rows that started from
    scratch and returned normally, [_get_line_count] of the output file is
    the number of input rows plus one, the header line. *)
Theorem line_count_after_run delay inpath outpath chunksize n_jobs restart
    (σ : fs)
    (run := process_raw_fulltexts_csv unpack universal_extract_paragraphs json_dumps
          delay inpath outpath chunksize n_jobs
              restart σ) :
  σ !! outpath = None ∨ restart = false →
  inpath ≠ [] →
  run.1 = Ok tt →
  _get_line_count outpath run.2 = (Ok (S (length inpath)), run.2).
Proof.
  intros Hfresh Hne Hok.
  destruct (fulltexts_fresh_rows delay inpath outpath chunksize n_jobs
              restart σ Hfresh) as (m & rows & Hrows & Hsnd & Hfst).
  fold run in Hsnd, Hfst. specialize (Hfst Hok). rewrite Hfst in Hrows.
  apply map_raise_length in Hrows.
  destruct m as [|m]; [by rewrite Nat.mul_0_l, take_0 in Hfst |].
  rewrite Hsnd. unfold _get_line_count. rewrite lookup_insert_eq.
  simpl. by rewrite length_fmap, Hrows.
Qed.

(** X14. On an input without rows the fulltexts pipeline raises
    ValueError and writes nothing, whatever the other arguments: the
    reader yields one chunk without rows, on which the loop body fails.
    Called with [restart=False] it has removed the output file by then. *)
Theorem fulltexts_empty_input delay outpath chunksize n_jobs restart
    (σ : fs) :
  process_raw_fulltexts_csv unpack universal_extract_paragraphs json_dumps
    delay [] outpath chunksize n_jobs restart σ
  = (Raise ValueError, if restart then σ else delete outpath σ).
Proof.
  assert (∀ n (τ : fs),
            fulltexts_read_loop delay [] outpath chunksize n_jobs n τ
            = (Raise ValueError, τ)) as Hloop.
  { intros n τ. unfold mbind at 1, M_bind at 1, lift, read_csv.
    rewrite skip_lines_range. destruct (chunksize =? 0); [done |].
    rewrite take_nil, drop_nil. simpl.
    unfold mbind, M_bind, fulltexts_body. unfold mbind, M_bind, lift.
    by rewrite fulltexts_output_nil. }
  destruct (σ !! outpath) as [f|] eqn:Hσ.
  - destruct restart.
    + erewrite fulltexts_run_restart by done. apply Hloop.
    + erewrite fulltexts_run_overwrite by done. apply Hloop.
  - rewrite fulltexts_run_absent by done. rewrite Hloop.
    destruct restart; [done | by rewrite delete_id].
Qed.

(** X15. Where the abstracts pipeline reaches its reader, with
    [restart=True] on an output file that exists, an input without rows
    makes it raise ValueError and leave the file system as it was. *)
Theorem abstracts_empty_input outpath chunksize f (σ : fs) :
  σ !! outpath = Some f →
  process_raw_abstracts_csv unpack json_dumps [] outpath chunksize true σ
  = (Raise ValueError, σ).
Proof.
  intros Hσ. erewrite abstracts_run_restart by done.
  unfold mbind at 1, M_bind at 1, lift, read_csv.
  rewrite skip_lines_range. destruct (chunksize =? 0); [done |].
  rewrite take_nil, drop_nil. simpl.
  unfold mbind, M_bind, abstracts_body. unfold mbind, M_bind, lift.
  by rewrite abstracts_output_nil.
Qed.

(** X16. A fulltexts run from scratch on a table in which the payload
    cell of some row is not text raises, whatever the chunk size, the
    number of workers and the order in which they finish: [bytes.fromhex]
    refuses the cell, and [pool.map] raises when a row of the chunk
    does. *)
Theorem fulltexts_number_cell_raises delay inpath outpath chunksize n_jobs
    restart (σ : fs) row :
  σ !! outpath = None ∨ restart = false →
  row ∈ inpath → Fulltexts.fulltext row = Number →
  is_Raise
    (process_raw_fulltexts_csv unpack universal_extract_paragraphs json_dumps
       delay inpath outpath chunksize n_jobs restart σ).1.
Proof.
  intros Hfresh Hrow Hcell.
  destruct (fulltexts_fresh_rows delay inpath outpath chunksize n_jobs
              restart σ Hfresh) as (m & rows & Hrows & _ & Hfst).
  destruct (_.1) as [[]|e]; [|by eexists].
  rewrite Hfst in Hrows by done. apply map_raise_Ok in Hrows.
  apply list_elem_of_lookup in Hrow as [i Hi].
  destruct (Forall2_lookup_l _ _ _ _ _ Hrows Hi) as (o & _ & Ho).
  apply FulltextTransformer_Ok in Ho as (bs & _ & _ & Hbs & _).
  by rewrite Hcell in Hbs.
Qed.
End outcomes.

(** *** The further properties on examples *)

Lemma Pool_map_result_witness :
  let func x := if x =? 3 then Raise ValueError
                else if x =? 7 then Raise DecompressError else Ok x in
  0 < 2 ∧ ∃ x, x ∈ seq 1 9 ∧ func x = Raise DecompressError.
Proof.
  intros func. split; [lia |].
  exact (Pool_map_result (λ i, 100 - i) 2 func (seq 1 9) ltac:(lia)).
Defined.

Lemma read_csv_chunks_witness :
  (0 < 2 ∧ skip_lines 0 (range 1 (1 + 1)) Doubles.five_rows ≠ [])
  ∧ ∃ reader,
      read_csv Doubles.five_rows 2 (range 1 (1 + 1)) = Ok reader
      ∧ concat reader = skip_lines 0 (range 1 (1 + 1)) Doubles.five_rows
      ∧ Forall (λ chunk, 0 < length chunk ≤ 2) reader
      ∧ ∀ i chunk, reader !! i = Some chunk → S i < length reader →
                   length chunk = 2.
Proof.
  assert (skip_lines 0 (range 1 (1 + 1)) Doubles.five_rows ≠ []) as Hkept
    by done.
  split; [split; [lia | exact Hkept] |].
  exact (read_csv_chunks Doubles.five_rows 2 (range 1 (1 + 1))
           ltac:(lia) Hkept).
Defined.

Lemma fulltexts_without_workers_witness :
  let σ : fs := {[ "out.csv" := [Foreign "left by an earlier run"] ]} in
  (0 < 2 ∧ Doubles.five_rows ≠ [])
  ∧ Doubles.process_raw_fulltexts_csv Doubles.together Doubles.five_rows
      "out.csv" 2 0 false σ
    = (Raise ValueError, delete "out.csv" σ).
Proof.
  intros σ. split; [split; [lia | done] |].
  exact (fulltexts_without_workers Doubles.unpack
           Doubles.universal_extract_paragraphs Doubles.json_dumps
           Doubles.together Doubles.five_rows "out.csv" 2 false σ
           ltac:(lia) ltac:(done)).
Defined.

Lemma other_files_untouched_witness :
  let σ : fs := {[ "other.csv" := [Foreign "kept"] ]} in
  "other.csv" ≠ "out.csv"
  ∧ (Doubles.process_raw_fulltexts_csv Doubles.together Doubles.five_rows
       "out.csv" 2 1 false σ).2 !! "other.csv" = σ !! "other.csv"
  ∧ (Doubles.process_raw_abstracts_csv [Doubles.abstract_in]
       "out.csv" 2 false σ).2 !! "other.csv" = σ !! "other.csv".
Proof.
  intros σ. assert ("other.csv" ≠ "out.csv") as Hne by done.
  split; [exact Hne |].
  exact (other_files_untouched Doubles.unpack
           Doubles.universal_extract_paragraphs Doubles.json_dumps
           Doubles.together Doubles.five_rows [Doubles.abstract_in]
           "out.csv" 2 1 false σ "other.csv" Hne).
Defined.

Lemma fulltexts_output_is_prefix_witness :
  let run := Doubles.process_raw_fulltexts_csv Doubles.together
               Doubles.ten_rows_one_corrupt "out.csv" 2 1 false ∅ in
  ((∅ : fs) !! "out.csv" = None ∨ false = false)
  ∧ ∃ m rows,
      map_raise (FulltextTransformer Doubles.unpack
                   Doubles.universal_extract_paragraphs Doubles.json_dumps)
        (take (m * 2) Doubles.ten_rows_one_corrupt) = Ok rows
      ∧ run.2 = match m with
                | 0 => delete "out.csv" ∅
                | S _ => <["out.csv" := Header :: (Data <$> rows)]> ∅
                end
      ∧ (run.1 = Ok tt →
         take (m * 2) Doubles.ten_rows_one_corrupt
         = Doubles.ten_rows_one_corrupt).
Proof.
  intros run.
  assert ((∅ : fs) !! "out.csv" = None ∨ false = false) as Hfresh
    by (by right).
  split; [exact Hfresh |].
  exact (fulltexts_output_is_prefix Doubles.unpack
           Doubles.universal_extract_paragraphs Doubles.json_dumps
           Doubles.together Doubles.ten_rows_one_corrupt "out.csv" 2 1 false
           ∅ Hfresh).
Defined.



Lemma abstracts_restart_on_empty_file_witness :
  let σ : fs := {[ "out.csv" := [] ]} in
  let inpath := [Doubles.abstract_in] in
  (σ !! "out.csv" = Some [] ∧ 0 < 1000 ∧ inpath ≠ []
   ∧ Forall (λ row,
               is_Ok (unpack_fromhex Doubles.unpack (Abstracts.title row)) ∧
               is_Ok (unpack_fromhex Doubles.unpack (Abstracts.abstract row)))
       inpath)
  ∧ ∃ rows,
      Doubles.process_raw_abstracts_csv inpath "out.csv" 1000 true σ
      = (Ok tt, <["out.csv" := Data <$> rows]> σ)
      ∧ header_count (Data <$> rows) = 0
      ∧ rows !! 0
        = Some (OutRow 7 101 (Some 102%Z) "abstract"
                  (Doubles.json_dumps ["Title A"; "Abstract A"])).
Proof.
  intros σ inpath.
  assert (σ !! "out.csv" = Some []) as Hσ by reflexivity.
  assert (Forall (λ row,
               is_Ok (unpack_fromhex Doubles.unpack (Abstracts.title row)) ∧
               is_Ok (unpack_fromhex Doubles.unpack (Abstracts.abstract row)))
            inpath) as Hall.
  { constructor; [|constructor]. split; eexists; vm_compute; reflexivity. }
  split; [split_and!; (done || lia) |].
  destruct (abstracts_restart_on_empty_file Doubles.unpack Doubles.json_dumps
              inpath "out.csv" 1000 σ Hσ ltac:(lia) ltac:(done) Hall)
    as (rows & Hrun & Hcount & _ & Hshape).
  exists rows. split_and!; [exact Hrun | exact Hcount |].
  destruct (Hshape 0 _ eq_refl) as (t & a & Ht & Ha & Ho).
  vm_compute in Ht, Ha. injection Ht as <-. injection Ha as <-. exact Ho.
Defined.

Lemma line_count_after_run_witness :
  let run := Doubles.process_raw_fulltexts_csv Doubles.last_first
               Doubles.five_rows "out.csv" 2 2 false ∅ in
  (((∅ : fs) !! "out.csv" = None ∨ false = false)
   ∧ Doubles.five_rows ≠ [] ∧ run.1 = Ok tt)
  ∧ _get_line_count "out.csv" run.2 = (Ok 6, run.2).
Proof.
  intros run.
  assert ((∅ : fs) !! "out.csv" = None ∨ false = false) as Hfresh
    by (by right).
  assert (run.1 = Ok tt) as Hok by (vm_compute; reflexivity).
  split; [split_and!; done |].
  exact (line_count_after_run Doubles.unpack
           Doubles.universal_extract_paragraphs Doubles.json_dumps
           Doubles.last_first Doubles.five_rows "out.csv" 2 2 false ∅
           Hfresh ltac:(done) Hok).
Defined.

Lemma abstracts_empty_input_witness :
  let f := [Header; Data (Doubles.fulltext_out 0 ["A"])] in
  let σ : fs := {[ "out.csv" := f ]} in
  σ !! "out.csv" = Some f
  ∧ Doubles.process_raw_abstracts_csv [] "out.csv" 1000 true σ
    = (Raise ValueError, σ).
Proof.
  intros f σ.
  assert (σ !! "out.csv" = Some f) as Hσ by reflexivity.
  split; [exact Hσ |].
  exact (abstracts_empty_input Doubles.unpack Doubles.json_dumps
           "out.csv" 1000 f σ Hσ).
Defined.

Lemma fulltexts_number_cell_raises_witness :
  let row := Fulltexts.Row 1 101 Number in
  let inpath := [Doubles.fulltext_in 0 "1f8b41"; row] in
  (((∅ : fs) !! "out.csv" = None ∨ true = false)
   ∧ row ∈ inpath ∧ Fulltexts.fulltext row = Number)
  ∧ is_Raise
      (Doubles.process_raw_fulltexts_csv Doubles.last_first inpath
         "out.csv" 2 2 true ∅).1.
Proof.
  intros row inpath.
  assert ((∅ : fs) !! "out.csv" = None ∨ true = false) as Hfresh
    by (by left).
  assert (row ∈ inpath) as Hrow by (apply elem_of_cons; right; apply elem_of_cons; by left).
  split; [split_and!; done |].
  exact (fulltexts_number_cell_raises Doubles.unpack
           Doubles.universal_extract_paragraphs Doubles.json_dumps
           Doubles.last_first inpath "out.csv" 2 2 true ∅ row
           Hfresh Hrow eq_refl).
Defined.
